(** * nxhttp: a shallow embedding of the retrying HTTP client

    The development follows the packages of the repository:
    - [strconv], [time]      : the pieces of the Go standard library the
                               code calls, with their integer widths;
    - [httpheader]           : header access and [ParseRetryAfter];
    - [netip], [nxdial]      : addresses, prefixes and the [RestrictedDialer];
    - [io], the response     : readers, [discardReadCloser], [Response.Close];
    - the body sources       : [GetBody] and the openers it builds;
    - the client             : [doRequest] and the retry loop of [Client.Do].

    Definitions come first, the properties afterwards. *)

From Stdlib Require Import ZArith String Ascii List Bool Lia.
From Stdlib.Strings Require Import Byte.
From stdpp Require Import base option list strings gmap.

Local Open Scope string_scope.
Local Open Scope Z_scope.

(* ===================================================================== *)
(** ** Errors                                                             *)
(* ===================================================================== *)

(** Go errors form chains through [Unwrap].  The constructors are the
    kinds of error values the client code creates or inspects. *)
Inductive error : Type :=
  | errorString (msg : string)
      (* errors.New / fmt.Errorf without %w *)
  | EOF
      (* io.EOF *)
  | DeadlineExceeded
      (* context.DeadlineExceeded; it has a Timeout() method returning true *)
  | Canceled
      (* context.Canceled *)
  | netError (msg : string) (timeout : bool)
      (* an error value exposing Timeout() bool, e.g. a net.Error *)
  | wrapError (msg : string) (err : error)
      (* fmt.Errorf("...: %w", err) *)
  | RequestError (err : error).
      (* nxhttp.RequestError{err}; Unwrap returns err *)

(** [errors.Is err context.DeadlineExceeded]: walk the Unwrap chain. *)
Fixpoint errors_Is_DeadlineExceeded (err : error) : bool :=
  match err with
  | DeadlineExceeded => true
  | wrapError _ e => errors_Is_DeadlineExceeded e
  | RequestError e => errors_Is_DeadlineExceeded e
  | _ => false
  end.

(** [errors.As err &tErr] for [tErr interface{ Timeout() bool }]: the first
    error of the chain that has the method. *)
Fixpoint errors_As_Timeout (err : error) : option bool :=
  match err with
  | DeadlineExceeded => Some true
  | netError _ t => Some t
  | wrapError _ e => errors_As_Timeout e
  | RequestError e => errors_As_Timeout e
  | errorString _ | EOF | Canceled => None
  end.

(** Results of fallible calls: Go's [(value, error)] pairs where exactly
    one side is meaningful. *)
Inductive result (A : Type) : Type :=
  | Ok (a : A)
  | Err (e : error).
Arguments Ok {A} a.
Arguments Err {A} e.

(* ===================================================================== *)
(** ** Fixed-width integers                                               *)
(* ===================================================================== *)

Definition wrap_u64 (x : Z) : Z := x mod 2 ^ 64.

(** Two's complement reading of the low 64 bits. *)
Definition wrap_i64 (x : Z) : Z := (x + 2 ^ 63) mod 2 ^ 64 - 2 ^ 63.

Definition maxInt64 : Z := 2 ^ 63 - 1.
Definition minInt64 : Z := - 2 ^ 63.

(* ===================================================================== *)
(** ** strconv                                                            *)
(* ===================================================================== *)

Module strconv.

Inductive NumError : Type := ErrSyntax | ErrRange.

Definition is_digit (c : ascii) : bool :=
  (48 <=? Z.of_nat (nat_of_ascii c)) && (Z.of_nat (nat_of_ascii c) <=? 57).

Definition digit (c : ascii) : Z := Z.of_nat (nat_of_ascii c) - 48.

Definition maxUint64 : Z := 2 ^ 64 - 1.

(** The smallest number such that [cutoff * 10 > maxUint64]. *)
Definition cutoff10 : Z := maxUint64 / 10 + 1.

(** The digit loop of [strconv.ParseUint(s, 10, 64)]; [n] is the
    accumulator, a uint64.  The range error is returned as soon as the
    accumulator would overflow, before later bytes are looked at. *)
Fixpoint ParseUint_loop (s : string) (n : Z) : Z * option NumError :=
  match s with
  | EmptyString => (n, None)
  | String c rest =>
      if is_digit c then
        if cutoff10 <=? n then (maxUint64, Some ErrRange)
        else
          let n' := wrap_u64 (n * 10) in
          let n1 := wrap_u64 (n' + digit c) in
          if (n1 <? n') || (maxUint64 <? n1) then (maxUint64, Some ErrRange)
          else ParseUint_loop rest n1
      else (0, Some ErrSyntax)
  end.

Definition ParseUint (s : string) : Z * option NumError :=
  match s with
  | EmptyString => (0, Some ErrSyntax)
  | _ => ParseUint_loop s 0
  end.

(** [strconv.ParseInt(s, 10, 64)]. *)
Definition ParseInt (s : string) : Z * option NumError :=
  match s with
  | EmptyString => (0, Some ErrSyntax)
  | String c rest =>
      let '(neg, digits) :=
        if Ascii.eqb c "+"%char then (false, rest)
        else if Ascii.eqb c "-"%char then (true, rest)
        else (false, s) in
      let '(un, err) := ParseUint digits in
      match err with
      | Some ErrSyntax => (0, Some ErrSyntax)
      | _ =>
          let cutoff := 2 ^ 63 in
          if negb neg && (cutoff <=? un) then (cutoff - 1, Some ErrRange)
          else if neg && (cutoff <? un) then (- cutoff, Some ErrRange)
          else (if neg then wrap_i64 (- un) else wrap_i64 un, None)
      end
  end.

End strconv.

(* ===================================================================== *)
(** ** time                                                               *)
(* ===================================================================== *)

Module time.

(** [time.Duration] is an int64 count of nanoseconds. *)
Definition Duration : Type := Z.

Definition Nanosecond : Duration := 1.
Definition Second : Duration := 1000000000.

Definition maxDuration : Duration := maxInt64.
Definition minDuration : Duration := minInt64.

(** Duration multiplication is int64 multiplication: it wraps. *)
Definition mul (a b : Duration) : Duration := wrap_i64 (a * b).

(** An instant, as nanoseconds since the Unix epoch.  [Time] values
    produced by parsing carry no monotonic reading. *)
Definition Time : Type := Z.

(** [t.Sub(u)]: the difference, saturated at the largest and smallest
    [Duration]. *)
Definition Sub (t u : Time) : Duration :=
  if maxDuration <? t - u then maxDuration
  else if t - u <? minDuration then minDuration
  else t - u.

(** [time.Until(t)] with the clock reading [now]. *)
Definition Until (now t : Time) : Duration := Sub t now.

End time.

(* ===================================================================== *)
(** ** httpheader                                                         *)
(* ===================================================================== *)

Module httpheader.

(** [Key] is the canonical form of a header name. *)
Definition Key : Type := string.

Definition RetryAfter : Key := "Retry-After".

(** [http.Header] is [map[string][]string]; the nil map reads as the
    empty one. *)
Abbreviation Header := (gmap string (list string)).

(** [Get]: the first value stored under the key, or the empty string. *)
Definition Get (h : Header) (key : Key) : string :=
  match h !! key with
  | Some (v :: _) => v
  | _ => ""
  end.

Section ParseRetryAfter.

(** [http.ParseTime] of the standard library: the instant an HTTP date
    denotes, or an error. *)
Variable ParseTime : string -> result time.Time.

(** The reading of the clock taken by [time.Until]. *)
Variable now : time.Time.

Definition ParseRetryAfter (v : string) : time.Duration * option error :=
  (* Fast-path, empty string. *)
  if String.eqb v "" then (0, None)
  else
    match strconv.ParseInt v with
    | (i, None) =>
        if i <? 0 then
          (0, Some (errorString "nxhttp: got negative Retry-After value in response"))
        else (time.mul i time.Second, None)
    | (_, Some _) =>
        match ParseTime v with
        | Err err =>
            (0, Some (wrapError
                        "nxhttp: failed to parse Retry-After header from response" err))
        | Ok t =>
            let until := time.Until now t in
            if until <? 0 then
              (0, Some (errorString "nxhttp: Retry-After date is in the past"))
            else (until, None)
        end
    end.

End ParseRetryAfter.

End httpheader.

(* ===================================================================== *)
(** ** net/netip                                                          *)
(* ===================================================================== *)

Module netip.

(** An [Addr] is the zero value, an IPv4 address (32 bits) or an IPv6
    address (128 bits) with an optional zone; the empty zone means no
    zone. *)
Inductive Addr : Type :=
  | AddrZero
  | Addr4 (a : Z)
  | Addr6 (a : Z) (zone : string).

Definition valid_addr (ip : Addr) : Prop :=
  match ip with
  | AddrZero => True
  | Addr4 a => 0 <= a < 2 ^ 32
  | Addr6 a _ => 0 <= a < 2 ^ 128
  end.

Definition AddrFrom4 (b0 b1 b2 b3 : Z) : Addr :=
  Addr4 (Z.lor (Z.shiftl b0 24) (Z.lor (Z.shiftl b1 16) (Z.lor (Z.shiftl b2 8) b3))).

(** An IPv6 address from its eight 16-bit groups. *)
Definition AddrFrom8 (g : list Z) : Addr :=
  Addr6 (fold_left (fun acc x => Z.lor (Z.shiftl acc 16) x) g 0) "".

Definition WithZone (ip : Addr) (zone : string) : Addr :=
  match ip with
  | Addr6 a _ => Addr6 a zone
  | _ => ip
  end.

Definition BitLen (ip : Addr) : Z :=
  match ip with AddrZero => 0 | Addr4 _ => 32 | Addr6 _ _ => 128 end.

Definition Is4 (ip : Addr) : bool :=
  match ip with Addr4 _ => true | _ => false end.

Definition Is6 (ip : Addr) : bool :=
  match ip with Addr6 _ _ => true | _ => false end.

Definition hasZone (ip : Addr) : bool :=
  match ip with Addr6 _ z => negb (String.eqb z "") | _ => false end.

(** An IPv4-mapped IPv6 address, [::ffff:a.b.c.d]. *)
Definition Is4In6 (ip : Addr) : bool :=
  match ip with
  | Addr6 a _ => Z.shiftr a 32 =? 65535
  | _ => false
  end.

Definition Unmap (ip : Addr) : Addr :=
  match ip with
  | Addr6 a _ => if Is4In6 ip then Addr4 (Z.land a (Z.ones 32)) else ip
  | _ => ip
  end.

(** Byte [i] of an IPv4 address, [i] in 0..3. *)
Definition v4 (a : Z) (i : Z) : Z := Z.land (Z.shiftr a ((3 - i) * 8)) 255.

(** Byte [i] of an IPv6 address, [i] in 0..15. *)
Definition v6 (a : Z) (i : Z) : Z := Z.land (Z.shiftr a ((15 - i) * 8)) 255.

(** 16-bit group [i] of an IPv6 address, [i] in 0..7. *)
Definition v6u16 (a : Z) (i : Z) : Z := Z.land (Z.shiftr a ((7 - i) * 16)) 65535.

Definition IsPrivate (ip : Addr) : bool :=
  match Unmap ip with
  | Addr4 a =>
      (v4 a 0 =? 10)
      || ((v4 a 0 =? 172) && (Z.land (v4 a 1) 240 =? 16))
      || ((v4 a 0 =? 192) && (v4 a 1 =? 168))
  | Addr6 a _ => Z.land (v6 a 0) 254 =? 252
  | AddrZero => false
  end.

Definition IsLoopback (ip : Addr) : bool :=
  match Unmap ip with
  | Addr4 a => v4 a 0 =? 127
  | Addr6 a _ => a =? 1
  | AddrZero => false
  end.

Definition IsLinkLocalUnicast (ip : Addr) : bool :=
  match Unmap ip with
  | Addr4 a => (v4 a 0 =? 169) && (v4 a 1 =? 254)
  | Addr6 a _ => Z.land (v6u16 a 0) 65472 =? 65152
  | AddrZero => false
  end.

Definition IsLinkLocalMulticast (ip : Addr) : bool :=
  match Unmap ip with
  | Addr4 a => (v4 a 0 =? 224) && (v4 a 1 =? 0) && (v4 a 2 =? 0)
  | Addr6 a _ => Z.land (v6u16 a 0) 65295 =? 65282
  | AddrZero => false
  end.

(** IPv6 only; an IPv4-mapped address is not interface-local. *)
Definition IsInterfaceLocalMulticast (ip : Addr) : bool :=
  match ip with
  | Addr6 a _ => negb (Is4In6 ip) && (Z.land (v6u16 a 0) 65295 =? 65281)
  | _ => false
  end.

(** A [Prefix] is an address and a bit count; [-1] bits is the invalid
    prefix.  The address of a prefix never carries a zone. *)
Record Prefix : Type := PrefixFrom { Addr_ : Addr; Bits : Z }.

Definition IsValid (p : Prefix) : bool := 0 <=? Bits p.

(** The [n] high bits of a 128-bit word. *)
Definition mask6 (n : Z) : Z := Z.shiftl (Z.ones n) (128 - n).

Definition Contains (p : Prefix) (ip : Addr) : bool :=
  if negb (IsValid p) || hasZone ip then false
  else if (BitLen (Addr_ p) =? 0) || (BitLen ip =? 0)
          || negb (BitLen (Addr_ p) =? BitLen ip) then false
  else
    match ip, Addr_ p with
    | Addr4 a, Addr4 pa =>
        Z.shiftr (Z.lxor a pa) (Z.land (32 - Bits p) 63) mod 2 ^ 32 =? 0
    | Addr6 a _, Addr6 pa _ =>
        Z.land (Z.lxor a pa) (mask6 (Bits p)) =? 0
    | _, _ => false
    end.

Record AddrPort : Type := AddrPortFrom { ap_Addr : Addr; ap_Port : Z }.

End netip.

(* ===================================================================== *)
(** ** nxdial                                                             *)
(* ===================================================================== *)

Module nxdial.

Definition ErrInternalResolution : error :=
  errorString "nxdial: destination resolves to an internal network location".

Record RestrictedDialer : Type := {
  AllowedPrefixes : list netip.Prefix;
  BlockedPrefixes : list netip.Prefix;
  IsPrivate : bool;
  IsLoopback : bool;
  IsLinkLocalUnicast : bool;
  IsLinkLocalMulticast : bool;
  IsInterfaceLocalMulticast : bool
}.

Definition NewRestrictedDialer : RestrictedDialer :=
  {| AllowedPrefixes := [];
     BlockedPrefixes := [];
     IsPrivate := true;
     IsLoopback := true;
     IsLinkLocalUnicast := true;
     IsLinkLocalMulticast := true;
     IsInterfaceLocalMulticast := true |}.

Definition IsAllowed (r : RestrictedDialer) (addr : netip.Addr) : bool :=
  if existsb (fun p => netip.Contains p addr) (AllowedPrefixes r) then true
  else if existsb (fun p => netip.Contains p addr) (BlockedPrefixes r) then false
  else if IsPrivate r && netip.IsPrivate addr then false
  else if IsLoopback r && netip.IsLoopback addr then false
  else if IsLinkLocalUnicast r && netip.IsLinkLocalUnicast addr then false
  else if IsLinkLocalMulticast r && netip.IsLinkLocalMulticast addr then false
  else if IsInterfaceLocalMulticast r && netip.IsInterfaceLocalMulticast addr then false
  else true.

(** An established connection: its identity and the string form of its
    remote address. *)
Record Conn : Type := { conn_id : nat; RemoteAddr : string }.

(** What the dialer does to the network. *)
Inductive NetOp : Type :=
  | OpDial (network addr : string)
  | OpConnClose (c : Conn).

Section DialContext.

(** The forwarded [net.Dialer.DialContext]. *)
Variable dial : string -> string -> result Conn.

(** [netip.ParseAddrPort] of the standard library. *)
Variable ParseAddrPort : string -> result netip.AddrPort.

(** Returns the pair [(conn, err)] of the Go function and the network
    operations performed, in order. *)
Definition DialContext (r : RestrictedDialer) (network addr : string)
  : (option Conn * option error) * list NetOp :=
  match dial network addr with
  | Err err => ((None, Some err), [OpDial network addr])
  | Ok c =>
      match ParseAddrPort (RemoteAddr c) with
      | Err err =>
          ((Some c, Some (wrapError "nxhttp: failed to parse remote address" err)),
           [OpDial network addr])
      | Ok addrPort =>
          if negb (IsAllowed r (netip.ap_Addr addrPort)) then
            ((Some c, Some ErrInternalResolution), [OpDial network addr])
          else ((Some c, None), [OpDial network addr])
      end
  end.

Definition Dial := DialContext.

End DialContext.

End nxdial.

(* ===================================================================== *)
(** ** io                                                                 *)
(* ===================================================================== *)

Module io.

(** [err == io.EOF] compares identities: a wrapped EOF is not EOF. *)
Definition is_EOF (e : option error) : bool :=
  match e with Some EOF => true | _ => false end.

(** An [io.ReadCloser] whose internal state has type [S].  [Read s n] is
    a call of [Read(p)] with [len(p) = n]: the bytes stored into [p] and
    the error returned. *)
Record ReadCloser (S : Type) : Type := {
  Read : S -> nat -> (list byte * option error) * S;
  Close : S -> option error * S
}.
Arguments Read {S} _ _ _.
Arguments Close {S} _ _.

(** The calls that reach the wrapped stream. *)
Inductive Op : Type :=
  | OpRead (len_p : nat) (n : nat)
  | OpClose.

Definition is_OpRead (o : Op) : bool :=
  match o with OpRead _ _ => true | OpClose => false end.

Fixpoint bytes_read (log : list Op) : Z :=
  match log with
  | [] => 0
  | OpRead _ n :: rest => Z.of_nat n + bytes_read rest
  | OpClose :: rest => bytes_read rest
  end.

(** A reader never stores more than [len(p)] bytes. *)
Definition respects_len {S} (R : ReadCloser S) : Prop :=
  forall s n, (length (Read R s n).1.1 <= n)%nat.

(** A reader given a non-empty buffer returns data or an error. *)
Definition makes_progress {S} (R : ReadCloser S) : Prop :=
  forall s n, (0 < n)%nat ->
    (Read R s n).1.1 <> [] \/ (Read R s n).1.2 <> None.

(** [io.LimitedReader.Read] over a reader with state [T]; [N] is the
    remaining allowance. *)
Definition LimitedReader_Read {T : Type}
    (read : T -> nat -> (list byte * option error) * T)
    (N : Z) (st : T) (n : nat) : (list byte * option error) * (Z * T) :=
  if N <=? 0 then (([], Some EOF), (N, st))
  else
    let n' := if N <? Z.of_nat n then Z.to_nat N else n in
    let '((bs, err), st') := read st n' in
    ((bs, err), (N - Z.of_nat (length bs), st')).

(** [io.ReadAll]: read until the reader returns an error; EOF is reported
    as success.  [room len] is the free space of the buffer when it holds
    [len] bytes; it is never zero since the buffer grows when full.
    [None]: the loop did not finish within [fuel] reads. *)
Fixpoint ReadAll {T : Type}
    (read : T -> nat -> (list byte * option error) * T)
    (room : nat -> nat) (fuel : nat) (st : T) (b : list byte)
  : option ((list byte * option error) * T) :=
  match fuel with
  | O => None
  | Datatypes.S fuel' =>
      let '((bs, err), st') := read st (room (length b)) in
      let b' := app b bs in
      match err with
      | Some e => Some ((b', if is_EOF err then None else Some e), st')
      | None => ReadAll read room fuel' st' b'
      end
  end.

(** The buffer of [io.Discard]'s [ReadFrom]. *)
Definition blackHole_len : nat := Z.to_nat 8192.

Section Wrapped.

Context {S : Type} (R : ReadCloser S).

(** The wrapped stream together with the log of the calls made on it. *)
Definition Logged : Type := S * list Op.

Definition call_Read (st : Logged) (n : nat)
  : (list byte * option error) * Logged :=
  let '((bs, err), s') := Read R st.1 n in
  ((bs, err), (s', app st.2 [OpRead n (length bs)])).

Definition call_Close (st : Logged) : option error * Logged :=
  let '(err, s') := Close R st.1 in
  (err, (s', app st.2 [OpClose])).

(** [io.Copy(io.Discard, src)] runs [io.Discard]'s [ReadFrom] on the
    source: it reads into an 8 KiB buffer until the source returns an
    error; EOF is reported as success.  The source here is a
    [LimitedReader] with allowance [N].  [None]: the loop did not
    finish within [fuel] reads. *)
Fixpoint Copy_Discard (fuel : nat) (N : Z) (st : Logged) (total : Z)
  : option ((Z * option error) * (Z * Logged)) :=
  match fuel with
  | O => None
  | Datatypes.S fuel' =>
      let '((bs, err), (N', st')) :=
        LimitedReader_Read call_Read N st blackHole_len in
      let total' := total + Z.of_nat (length bs) in
      match err with
      | Some e => Some ((total', if is_EOF err then None else Some e), (N', st'))
      | None => Copy_Discard fuel' N' st' total'
      end
  end.

End Wrapped.

End io.

(* ===================================================================== *)
(** ** The response and its body wrapper                                  *)
(* ===================================================================== *)

Section Response.

Context {S : Type} (R : io.ReadCloser S).

(** [discardReadCloser]: the wrapped [io.ReadCloser] and whether it has
    ever returned [io.EOF]. *)
Record discardReadCloser : Type := {
  ReadCloser_ : io.Logged (S := S);
  eof : bool
}.

Definition discardReadCloser_Read (r : discardReadCloser) (n : nat)
  : (list byte * option error) * discardReadCloser :=
  let '((bs, err), st') := io.call_Read R (ReadCloser_ r) n in
  ((bs, err),
   {| ReadCloser_ := st'; eof := if io.is_EOF err then true else eof r |}).

(** [discard]: copy at most 16 KiB from the reader to [io.Discard]; both
    results of the copy are dropped. *)
Definition discard (fuel : nat) (st : io.Logged) : option io.Logged :=
  match io.Copy_Discard R fuel (16 * 1024) st 0 with
  | Some (_, (_, st')) => Some st'
  | None => None
  end.

Definition discardReadCloser_Close (fuel : nat) (r : discardReadCloser)
  : option (option error * discardReadCloser) :=
  if negb (eof r) then
    match discard fuel (ReadCloser_ r) with
    | Some st' =>
        let '(err, st'') := io.call_Close R st' in
        Some (err, {| ReadCloser_ := st''; eof := eof r |})
    | None => None
    end
  else
    let '(err, st'') := io.call_Close R (ReadCloser_ r) in
    Some (err, {| ReadCloser_ := st''; eof := eof r |}).

(** [Response]: the parts of [http.Response] the client looks at. *)
Record Response : Type := {
  StatusCode : Z;
  Header : httpheader.Header;
  Body : option discardReadCloser
}.

(** [Response.Close]. *)
Definition Response_Close (fuel : nat) (r : Response)
  : option (option error * Response) :=
  match Body r with
  | None => Some (None, r)
  | Some body =>
      match discardReadCloser_Close fuel body with
      | Some (err, body') =>
          Some (err, {| StatusCode := StatusCode r;
                        Header := Header r;
                        Body := Some body' |})
      | None => None
      end
  end.

Definition GetHeader (r : Response) (key : httpheader.Key) : string :=
  httpheader.Get (Header r) key.

Definition retryAfter (ParseTime : string -> result time.Time) (now : time.Time)
    (r : Response) : time.Duration * option error :=
  httpheader.ParseRetryAfter ParseTime now
    (httpheader.Get (Header r) httpheader.RetryAfter).

End Response.

(* ===================================================================== *)
(** ** Request bodies                                                     *)
(* ===================================================================== *)

(** The object a body function is closed over: a [bytes.Reader], a
    [strings.Reader] or an open file.  It has a content, a read offset,
    and the error its [Seek] returns, if any (a pipe cannot seek).  Every
    stream a body function hands out reads from this one object. *)
Record ReadSeeker : Type := {
  rs_data : list byte;
  rs_off : nat;
  rs_seek_err : option error
}.

(** [bytes.NewReader] and [strings.NewReader]. *)
Definition NewReader (b : list byte) : ReadSeeker :=
  {| rs_data := b; rs_off := 0; rs_seek_err := None |}.

Definition ReadSeeker_Read (r : ReadSeeker) (n : nat)
  : (list byte * option error) * ReadSeeker :=
  if (length (rs_data r) <=? rs_off r)%nat then (([], Some EOF), r)
  else
    let bs := take n (drop (rs_off r) (rs_data r)) in
    ((bs, None),
     {| rs_data := rs_data r;
        rs_off := rs_off r + length bs;
        rs_seek_err := rs_seek_err r |}).

(** [r.Seek(0, io.SeekStart)]. *)
Definition ReadSeeker_SeekStart (r : ReadSeeker) : option error * ReadSeeker :=
  match rs_seek_err r with
  | Some e => (Some e, r)
  | None =>
      (None, {| rs_data := rs_data r; rs_off := 0; rs_seek_err := rs_seek_err r |})
  end.

(** The streams the body functions return; both alias the object. *)
Inductive Stream : Type :=
  | NopCloser_Reader
      (* io.NopCloser(r) *)
  | NopCloser_LimitReader (N : Z).
      (* io.NopCloser(io.LimitReader(r, n)) *)

Definition Stream_Read (st : Stream * ReadSeeker) (n : nat)
  : (list byte * option error) * (Stream * ReadSeeker) :=
  match st.1 with
  | NopCloser_Reader =>
      let '(res, r') := ReadSeeker_Read st.2 n in (res, (NopCloser_Reader, r'))
  | NopCloser_LimitReader N =>
      let '(res, (N', r')) := io.LimitedReader_Read ReadSeeker_Read N st.2 n in
      (res, (NopCloser_LimitReader N', r'))
  end.

(** [BodyFunc]: a closure over the shared object, written as a function of
    the object's state. *)
Definition BodyFunc : Type := ReadSeeker -> (Stream * option error) * ReadSeeker.

(** The [Size] and [Len] methods a value may have. *)
Record LenMethods : Type := {
  method_Size : option Z;     (* Size() int64 *)
  method_Len64 : option Z;    (* Len() int64 *)
  method_Len : option Z       (* Len() int *)
}.

Definition getLen (m : LenMethods) : Z :=
  match method_Size m, method_Len64 m, method_Len m with
  | Some n, _, _ => n
  | None, Some n, _ => n
  | None, None, Some n => n
  | None, None, None => -1
  end.

(** The methods of [*bytes.Reader] and [*strings.Reader]. *)
Definition Reader_methods (r : ReadSeeker) : LenMethods :=
  {| method_Size := Some (Z.of_nat (length (rs_data r)));
     method_Len64 := None;
     method_Len := Some (Z.of_nat (length (rs_data r) - rs_off r)) |}.

Definition bodyFuncFromFile (n : Z) : BodyFunc :=
  fun r =>
    let '(err, r') := ReadSeeker_SeekStart r in
    ((NopCloser_LimitReader n, err), r').

Definition bodyFuncFromReadSeeker : BodyFunc :=
  fun r =>
    let '(err, r') := ReadSeeker_SeekStart r in
    ((NopCloser_Reader, err), r').

Definition ReadOpenerFor (fn : BodyFunc) (n : Z) : BodyFunc * LenMethods :=
  (fn, {| method_Size := Some n; method_Len64 := None; method_Len := None |}).

(** The dynamic types [GetBody] distinguishes, in the order of its type
    switch. *)
Inductive any : Type :=
  | any_nil
  | any_ReadOpener (open : BodyFunc) (m : LenMethods) (obj : ReadSeeker)
  | any_SeekableFile (f : ReadSeeker) (stat : result Z)
      (* fs.File with io.Seeker, *os.File included; [stat] is what
         Stat() returns, the size on success *)
  | any_ReadSeeker (r : ReadSeeker) (m : LenMethods)
  | any_bytes (b : list byte)
  | any_string (s : string)
  | any_Values (v : gmap string (list string))
  | any_other (type_name : string).

Section GetBody.

(** [url.Values.Encode] of the standard library. *)
Variable Encode : gmap string (list string) -> string.

Definition bodyFuncFromReadSeekerSize (r : ReadSeeker)
  : (option BodyFunc * Z * option error) * option ReadSeeker :=
  ((Some bodyFuncFromReadSeeker, Z.of_nat (length (rs_data r)), None), Some r).

(** Returns the triple of the Go function and the object the returned
    body function is closed over. *)
Definition GetBody (v : any)
  : (option BodyFunc * Z * option error) * option ReadSeeker :=
  match v with
  | any_nil => ((None, 0, None), None)
  | any_ReadOpener open m obj => ((Some open, getLen m, None), Some obj)
  | any_SeekableFile f stat =>
      match stat with
      | Err err =>
          ((None, 0, Some (wrapError "nxhttp: failed to stat file to use as body" err)),
           None)
      | Ok size => ((Some (bodyFuncFromFile size), size, None), Some f)
      end
  | any_ReadSeeker r m => ((Some bodyFuncFromReadSeeker, getLen m, None), Some r)
  | any_bytes b => bodyFuncFromReadSeekerSize (NewReader b)
  | any_string s => bodyFuncFromReadSeekerSize (NewReader (list_byte_of_string s))
  | any_Values vals =>
      bodyFuncFromReadSeekerSize (NewReader (list_byte_of_string (Encode vals)))
  | any_other _ =>
      ((None, 0, Some (errorString "nxhttp: cannot handle body of type")), None)
  end.

End GetBody.

(** Open the body and read the returned stream to its end, as one attempt
    does.  A failed open yields no content. *)
Definition open_and_read (room : nat -> nat) (fuel : nat) (fn : BodyFunc)
    (r : ReadSeeker) : option ((list byte * option error) * ReadSeeker) :=
  let '((stream, err), r1) := fn r in
  match err with
  | Some e => Some (([], Some e), r1)
  | None =>
      match io.ReadAll Stream_Read room fuel (stream, r1) [] with
      | Some (res, (_, r2)) => Some (res, r2)
      | None => None
      end
  end.

(** [k] opens in a row, each stream read to its end before the next open. *)
Fixpoint replay (room : nat -> nat) (fuel : nat) (fn : BodyFunc)
    (k : nat) (r : ReadSeeker) : option (list (list byte * option error) * ReadSeeker) :=
  match k with
  | O => Some ([], r)
  | Datatypes.S k' =>
      match open_and_read room fuel fn r with
      | Some (res, r1) =>
          match replay room fuel fn k' r1 with
          | Some (rest, r2) => Some (res :: rest, r2)
          | None => None
          end
      | None => None
      end
  end.

(* ===================================================================== *)
(** ** The retry policy                                                   *)
(* ===================================================================== *)

Module nxretry.

(** Modelled from the spec: the retry policy of package [nxretry], which
    the client imports and the sources do not contain.  It is a mutable
    attempt counter with a backoff schedule; it tells whether attempts
    remain, advances to the next delay (which consumes one attempt), and
    lets the next delay be overridden with an explicit value.  A maximum
    of [0] attempts means unlimited. *)
Record Retrier : Type := {
  maxAttempts : nat;
  backoff : nat -> time.Duration;
  attempt : nat;
  override : option time.Duration
}.

Definition New (maxAttempts : nat) (backoff : nat -> time.Duration) : Retrier :=
  {| maxAttempts := maxAttempts; backoff := backoff;
     attempt := 0; override := None |}.

Definition hasAttemptsRemaining (r : Retrier) : bool :=
  (maxAttempts r =? 0)%nat || (attempt r <? maxAttempts r)%nat.

(** The delay before the next attempt, consuming that attempt.  The
    first attempt is not delayed; an override is used once. *)
Definition nextDelay (r : Retrier) : option time.Duration * Retrier :=
  (if (attempt r =? 0)%nat then None
   else Some (default (backoff r (attempt r)) (override r)),
   {| maxAttempts := maxAttempts r; backoff := backoff r;
      attempt := Datatypes.S (attempt r); override := None |}).

Definition Override (d : time.Duration) (r : Retrier) : Retrier :=
  {| maxAttempts := maxAttempts r; backoff := backoff r;
     attempt := attempt r; override := Some d |}.

(** One step of the iterator [Next(ctx)]: [None] when the iteration is
    over, otherwise the wait before the attempt that is yielded. *)
Definition Next (ctx_err : option error) (r : Retrier)
  : option (option time.Duration * Retrier) :=
  match ctx_err with
  | Some _ => None
  | None => if hasAttemptsRemaining r then Some (nextDelay r) else None
  end.

(** Modelled from the spec: the exponential backoff, a floor multiplied
    by the factor at every retry and capped by the ceiling. *)
Definition Exponential (factor : Z) (min max : time.Duration) (attempt : nat)
  : time.Duration :=
  Z.min max (min * factor ^ (Z.of_nat attempt - 1)).

End nxretry.

(* ===================================================================== *)
(** ** The client                                                         *)
(* ===================================================================== *)

(** [isTimeout]. *)
Definition isTimeout (err : error) : bool :=
  if errors_Is_DeadlineExceeded err then true
  else
    match errors_As_Timeout err with
    | Some t => t
    | None => false
    end.

(** Status codes of [net/http]. *)
Definition StatusOK : Z := 200.
Definition StatusTooManyRequests : Z := 429.
Definition StatusInternalServerError : Z := 500.
Definition StatusBadGateway : Z := 502.
Definition StatusServiceUnavailable : Z := 503.
Definition StatusGatewayTimeout : Z := 504.

Section Client.

(** The state of the body streams the transport returns. *)
Context {S : Type}.

Variable ParseTime : string -> result time.Time.

Abbreviation Response := (Response (S := S)).

(** [options], as [setDefaults] leaves them: the backoff and the error
    hook are never nil. *)
Record options : Type := {
  defaultHeaders : option (gmap httpheader.Key string);
  backoff : nat -> time.Duration;
  maxAttempts : nat;
  minRetryAfter : time.Duration;
  maxRetryAfter : time.Duration;
  onError : error -> option error;
  onErrorResponse : option (Response -> option error * Response)
    (* the hook gets the pointer: what it does to the response stays *)
}.

(** [newOptions] followed by [setDefaults]. *)
Definition newOptions : options :=
  {| defaultHeaders := None;
     backoff := nxretry.Exponential 2 (1 * time.Second) (5 * time.Second);
     maxAttempts := 3;
     minRetryAfter := 3 * time.Second;
     maxRetryAfter := 30 * time.Second;
     onError := fun err => Some err;
     onErrorResponse := None |}.

(** [Request]: the headers, the body function and the object that
    function is closed over. *)
Record Request : Type := {
  req_Header : httpheader.Header;
  body : option BodyFunc;
  body_obj : ReadSeeker
}.

(** What [http.Client.Do] hands back: the status, the headers and the
    raw body stream. *)
Record http_Response : Type := {
  res_StatusCode : Z;
  res_Header : httpheader.Header;
  res_Body : option S
}.

(** The surroundings of one call of [Do], by attempt number: the state
    of the context when it is consulted, the outcome of the network call
    (which may consume the request body), and the clock.
    [http.Client.Do] returns a response exactly when it returns no
    error, so [doRequest] never sees a nil response with a nil error. *)
Record World : Type := {
  ctx_Err : nat -> option error;
  send : nat -> option Stream -> ReadSeeker -> result http_Response * ReadSeeker;
  clock : nat -> time.Time
}.

Inductive Event : Type :=
  | EvSleep (d : time.Duration)
  | EvGetBody (i : nat)
  | EvRoundTrip (i : nat)
  | EvOnError (i : nat)
  | EvOnErrorResponse (i : nat)
  | EvOverride (d : time.Duration).

Variable w : World.

(** [doRequest] at attempt [i]: the pair the Go function returns, the
    request afterwards, and what was done. *)
Definition doRequest (i : nat) (req : Request)
  : (option Response * option error) * Request * list Event :=
  let with_obj (o : ReadSeeker) :=
    {| req_Header := req_Header req; body := body req; body_obj := o |} in
  let call (stream : option Stream) (o : ReadSeeker) (evs : list Event) :=
    let '(res, o') := send w i stream o in
    match res with
    | Err err => ((None, Some (RequestError err)), with_obj o', app evs [EvRoundTrip i])
    | Ok res =>
        ((Some {| StatusCode := res_StatusCode res;
                  Header := res_Header res;
                  Body := option_map
                            (fun s => {| ReadCloser_ := (s, []); eof := false |})
                            (res_Body res) |},
          None),
         with_obj o', app evs [EvRoundTrip i])
    end in
  match body req with
  | Some GetBody_ =>
      let '((stream, err), o) := GetBody_ (body_obj req) in
      match err with
      | Some err => ((None, Some (RequestError err)), with_obj o, [EvGetBody i])
      | None => call (Some stream) o [EvGetBody i]
      end
  | None => call None (body_obj req) []
  end.

(** The variables of the loop of [Do], with the responses that were
    overwritten by a later attempt. *)
Record LoopState : Type := {
  r : option Response;
  doErr : option error;
  rty : nxretry.Retrier;
  req : Request;
  trace : list Event;
  discarded : list Response
}.

Inductive Flow : Type :=
  | Continue (st : LoopState)
  | Break (st : LoopState).

Variable c : options.

(** The switch on the status code.  Every case is empty, and the
    [break] of the default case leaves the switch, not the loop: the
    statement has no effect. *)
Definition status_switch (StatusCode : Z) : unit :=
  if StatusCode =? StatusTooManyRequests then tt
  else if StatusCode =? StatusInternalServerError then tt
  else if StatusCode =? StatusBadGateway then tt
  else if StatusCode =? StatusServiceUnavailable then tt
  else if StatusCode =? StatusGatewayTimeout then tt
  else tt.

(** The body of the loop, for attempt [i]. *)
Definition attempt_body (i : nat) (st : LoopState) : Flow :=
  let '((r', doErr'), req', evs) := doRequest i (req st) in
  let dropped := match r st with Some old => [old] | None => [] end in
  let st1 :=
    {| r := r'; doErr := doErr'; rty := rty st; req := req';
       trace := app (trace st) evs;
       discarded := app (discarded st) dropped |} in
  match doErr', r' with
  | Some err, _ =>
      let doErr2 := onError c err in
      let st2 :=
        {| r := r st1; doErr := doErr2; rty := rty st1; req := req st1;
           trace := app (trace st1) [EvOnError i];
           discarded := discarded st1 |} in
      match doErr2 with
      | None => Continue st2
      | Some e => if isTimeout e then Continue st2 else Break st2
      end
  | None, None => Break st1 (* excluded by [World] *)
  | None, Some resp =>
      if (StatusOK <=? StatusCode resp) && (StatusCode resp <=? 299) then Break st1
      else
        let '(hookErr, resp2, evs2) :=
          match onErrorResponse c with
          | Some hook =>
              let '(e, resp2) := hook resp in (e, resp2, [EvOnErrorResponse i])
          | None => (None, resp, [])
          end in
        let st2 :=
          {| r := Some resp2; doErr := hookErr; rty := rty st1; req := req st1;
             trace := app (trace st1) evs2;
             discarded := discarded st1 |} in
        match hookErr with
        | Some _ => Break st2
        | None =>
            let _ := status_switch (StatusCode resp2) in
            let '(d, err) := retryAfter ParseTime (clock w i) resp2 in
            match err with
            | Some _ => Continue st2
            | None =>
                if minRetryAfter c <? d then
                  let d :=
                    if (0 <? maxRetryAfter c) && (maxRetryAfter c <? d)
                    then maxRetryAfter c else d in
                  Continue
                    {| r := r st2; doErr := doErr st2;
                       rty := nxretry.Override d (rty st2); req := req st2;
                       trace := app (trace st2) [EvOverride d];
                       discarded := discarded st2 |}
                else Continue st2
            end
        end
  end.

(** The loop [for range rty.Next(ctx)].  [None]: more than [fuel]
    attempts would be needed. *)
Fixpoint Do_loop (fuel : nat) (st : LoopState) : option LoopState :=
  match fuel with
  | O => None
  | Datatypes.S fuel' =>
      let i := nxretry.attempt (rty st) in
      match nxretry.Next (ctx_Err w (Datatypes.S i)) (rty st) with
      | None => Some st
      | Some (wait, rty') =>
          let st1 :=
            {| r := r st; doErr := doErr st; rty := rty'; req := req st;
               trace := app (trace st)
                            match wait with Some d => [EvSleep d] | None => [] end;
               discarded := discarded st |} in
          match attempt_body i st1 with
          | Continue st2 => Do_loop fuel' st2
          | Break st2 => Some st2
          end
      end
  end.

(** [Client.Do]: the final loop state, from which the pair [(r, doErr)]
    is returned. *)
Definition Do (fuel : nat) (request : Request) : option LoopState :=
  match ctx_Err w 0 with
  | Some err =>
      Some {| r := None;
              doErr := Some (wrapError "nxhttp: context already has an error" err);
              rty := nxretry.New (maxAttempts c) (backoff c);
              req := request; trace := []; discarded := [] |}
  | None =>
      let headers :=
        match defaultHeaders c with
        | Some dh => union (req_Header request) ((fun v => [v]) <$> dh)
        | None => req_Header request
        end in
      Do_loop fuel
        {| r := None; doErr := None;
           rty := nxretry.New (maxAttempts c) (backoff c);
           req := {| req_Header := headers; body := body request;
                     body_obj := body_obj request |};
           trace := []; discarded := [] |}
  end.

End Client.

(* ===================================================================== *)
(** ** Vocabulary of the statements                                       *)
(* ===================================================================== *)

(** Decimal numerals: the strings the Retry-After grammar calls
    delay-seconds, and their values. *)
Fixpoint all_digits (s : string) : bool :=
  match s with
  | EmptyString => true
  | String c rest => strconv.is_digit c && all_digits rest
  end.

Fixpoint digits_value (s : string) (acc : Z) : Z :=
  match s with
  | EmptyString => acc
  | String c rest => digits_value rest (acc * 10 + strconv.digit c)
  end.

(** [s] is the decimal numeral of [n]; leading zeros are allowed. *)
Definition decimal (s : string) (n : Z) : Prop :=
  s <> "" /\ all_digits s = true /\ digits_value s 0 = n.

(** An optional sign followed by at least one digit. *)
Definition integer_syntax (s : string) : bool :=
  match s with
  | EmptyString => false
  | String c rest =>
      if Ascii.eqb c "+"%char || Ascii.eqb c "-"%char
      then negb (String.eqb rest "") && all_digits rest
      else all_digits s
  end.

(** Membership in one of the prefixes of a list. *)
Definition in_any (ps : list netip.Prefix) (addr : netip.Addr) : bool :=
  existsb (fun p => netip.Contains p addr) ps.

(** The address is in a class whose toggle is enabled. *)
Definition class_blocked (r : nxdial.RestrictedDialer) (addr : netip.Addr) : bool :=
  (nxdial.IsPrivate r && netip.IsPrivate addr)
  || (nxdial.IsLoopback r && netip.IsLoopback addr)
  || (nxdial.IsLinkLocalUnicast r && netip.IsLinkLocalUnicast addr)
  || (nxdial.IsLinkLocalMulticast r && netip.IsLinkLocalMulticast addr)
  || (nxdial.IsInterfaceLocalMulticast r && netip.IsInterfaceLocalMulticast addr).

(** The object with its offset set. *)
Definition rewound (r : ReadSeeker) (off : nat) : ReadSeeker :=
  {| rs_data := rs_data r; rs_off := off; rs_seek_err := rs_seek_err r |}.

(** The body kinds [GetBody] builds a replayable source for by itself. *)
Definition replayable (v : any) : bool :=
  match v with
  | any_SeekableFile _ (Ok _) | any_ReadSeeker _ _
  | any_bytes _ | any_string _ | any_Values _ => true
  | _ => false
  end.

(** The logical content of such a body: the bytes, the text, the encoded
    form values, the file up to the size found by Stat, or everything the
    seekable reader holds. *)
Definition body_content (Encode : gmap string (list string) -> string) (v : any)
  : list byte :=
  match v with
  | any_bytes b => b
  | any_string s => list_byte_of_string s
  | any_Values vals => list_byte_of_string (Encode vals)
  | any_SeekableFile f (Ok size) => take (Z.to_nat size) (rs_data f)
  | any_ReadSeeker r _ => rs_data r
  | _ => []
  end.

(** A response as [doRequest] wraps it: nothing was read from its body,
    and the body was not closed. *)
Definition as_received {S : Type} (resp : Response (S := S)) : Prop :=
  match Body resp with
  | Some b => (ReadCloser_ b).2 = [] /\ eof b = false
  | None => True
  end.

(** A response as received, or as the error-response hook left it. *)
Definition left_by_hook {S : Type} (c : options (S := S)) (resp : Response (S := S))
  : Prop :=
  exists resp0,
    as_received resp0
    /\ (resp = resp0
        \/ exists hook, onErrorResponse c = Some hook /\ resp = (hook resp0).2).

(** The body of the response has been closed. *)
Definition body_closed {S : Type} (resp : Response (S := S)) : bool :=
  match Body resp with
  | Some b => existsb (fun o => negb (io.is_OpRead o)) (ReadCloser_ b).2
  | None => true
  end.

(** The error-response hook, when there is one. *)
Definition run_hook {S : Type} (c : options (S := S)) (resp : Response (S := S))
  : option error * Response (S := S) :=
  match onErrorResponse c with
  | Some hook => hook resp
  | None => (None, resp)
  end.

(** The error is permanent: not nil and not a timeout. *)
Definition permanent (err : option error) : bool :=
  match err with
  | Some e => negb (isTimeout e)
  | None => false
  end.

(** The wait before the attempt that follows the state. *)
Definition next_wait {S : Type} (st : LoopState (S := S)) : option time.Duration :=
  (nxretry.nextDelay (rty st)).1.

Definition is_round_trip (e : Event) : bool :=
  match e with EvRoundTrip _ => true | _ => false end.

Definition is_get_body (e : Event) : bool :=
  match e with EvGetBody _ => true | _ => false end.

(** The number of events of a kind in a trace. *)
Definition count_events (p : Event -> bool) (tr : list Event) : nat :=
  length (List.filter p tr).

(** The status code is outside 200-299. *)
Definition not_success (status : Z) : Prop :=
  (StatusOK <=? status) && (status <=? 299) = false.

(** The response [doRequest] builds from what the transport returns. *)
Definition wrap_response {S : Type} (res : http_Response (S := S))
  : Response (S := S) :=
  {| StatusCode := res_StatusCode res;
     Header := res_Header res;
     Body := option_map (fun s => {| ReadCloser_ := (s, []); eof := false |})
                        (res_Body res) |}.

Definition option_list {A : Type} (o : option A) : list A :=
  match o with Some a => [a] | None => [] end.

(* ===================================================================== *)
(** ** httpheader: the map operations                                     *)
(* ===================================================================== *)

Module httpheader_map.

(** An [http.Header] that may be the nil map: [None] is nil. *)
Definition Header : Type := option (gmap string (list string)).

(** [h[key]] on a map: the nil slice when the key is missing. *)
Definition index (m : gmap string (list string)) (key : httpheader.Key)
  : list string :=
  default [] (m !! key).

Definition Add (h : Header) (key : httpheader.Key) (value : string) : Header :=
  match h with
  | None => None
  | Some m => Some (<[key := app (index m key) [value]]> m)
  end.

(** [Set]; the values are the variadic arguments. *)
Definition Set_ (h : Header) (key : httpheader.Key) (value : list string) : Header :=
  match h with
  | None => None
  | Some m => Some (<[key := value]> m)
  end.

Definition Get (h : Header) (key : httpheader.Key) : string :=
  match h with
  | None => ""
  | Some m =>
      match index m key with
      | [] => ""
      | v :: _ => v
      end
  end.

Definition Values (h : Header) (key : httpheader.Key) : list string :=
  match h with
  | None => []
  | Some m => index m key
  end.

Definition Del (h : Header) (key : httpheader.Key) : Header :=
  match h with
  | None => None
  | Some m => Some (delete key m)
  end.

End httpheader_map.

(** The bodies whose size [GetBody] takes from the reader it builds or is
    given: bytes, text, form values, and a [bytes.Reader] or
    [strings.Reader] passed in as it is. *)
Definition sized_by_reader (v : any) : bool :=
  match v with
  | any_bytes _ | any_string _ | any_Values _ => true
  | any_ReadSeeker r m =>
      match method_Size m with
      | Some n => n =? Z.of_nat (length (rs_data r))
      | None => false
      end
  | _ => false
  end.

(** The numbers from [base] up to, not including, [base + 2 ^ free]: the
    addresses of a prefix that leaves [free] bits open. *)
Definition in_block (base free a : Z) : Prop := base <= a < base + 2 ^ free.

(** The error at the end of an Unwrap chain. *)
Fixpoint root_cause (err : error) : error :=
  match err with
  | wrapError _ e => root_cause e
  | RequestError e => root_cause e
  | _ => err
  end.

(* ===================================================================== *)
(** ** Status errors                                                      *)
(* ===================================================================== *)

Module statuserror.

(** [StatusError]. *)
Record StatusError : Type := {
  Data : list byte;
  StatusCode : Z;
  Expected : Z
}.

(** The zero value. *)
Definition zero : StatusError := {| Data := []; StatusCode := 0; Expected := 0 |}.

(** The error values [AsStatusError] may be handed: a [StatusError], an
    error that wraps another with %w or as [RequestError], or any error
    outside this package's status errors. *)
Inductive err : Type :=
  | ofStatusError (e : StatusError)
  | wrapped (msg : string) (e : err)
  | other (e : error).

(** [errors.As(err, &sErr)] for a [StatusError] target: the first
    [StatusError] of the chain. *)
Fixpoint errors_As (e : err) : option StatusError :=
  match e with
  | ofStatusError s => Some s
  | wrapped _ e' => errors_As e'
  | other _ => None
  end.

(** [AsStatusError]; [None] is the nil error. *)
Definition AsStatusError (e : option err) : StatusError * bool :=
  match e with
  | None => (zero, false)
  | Some e' =>
      match errors_As e' with
      | Some s => (s, true)
      | None => (zero, false)
      end
  end.

(** [fmt.Errorf("%w", ...)] applied [k] times. *)
Fixpoint wrap_times (k : nat) (e : err) : err :=
  match k with
  | O => e
  | Datatypes.S k' => wrapped "" (wrap_times k' e)
  end.

End statuserror.

(* ===================================================================== *)
(** ** http.MaxBytesReader and NewStatusError                             *)
(* ===================================================================== *)

Module nethttp.

(** The state of [http.MaxBytesReader(nil, r, n)]: the bytes still allowed
    and the error it has settled on. *)
Record maxBytesReader : Type := { mb_n : Z; mb_err : option error }.

Definition MaxBytesError : error := errorString "http: request body too large".

Definition MaxBytesReader (n : Z) : maxBytesReader :=
  {| mb_n := if n <? 0 then 0 else n; mb_err := None |}.

(** [maxBytesReader.Read] over a reader with state [T].  It asks the
    reader for at most one byte more than is allowed; when that many
    arrive it returns the allowed bytes with a [MaxBytesError], for
    good. *)
Definition maxBytesReader_Read {T : Type}
    (read : T -> nat -> (list byte * option error) * T)
    (st : maxBytesReader * T) (n : nat)
  : (list byte * option error) * (maxBytesReader * T) :=
  match mb_err st.1 with
  | Some e => (([], Some e), st)
  | None =>
      if (n =? 0)%nat then (([], None), st)
      else
        let n' := if mb_n st.1 <? Z.of_nat n - 1
                  then Z.to_nat (mb_n st.1 + 1) else n in
        let '((bs, err), t') := read st.2 n' in
        if Z.of_nat (length bs) <=? mb_n st.1 then
          ((bs, err),
           ({| mb_n := mb_n st.1 - Z.of_nat (length bs); mb_err := err |}, t'))
        else
          ((take (Z.to_nat (mb_n st.1)) bs, Some MaxBytesError),
           ({| mb_n := 0; mb_err := Some MaxBytesError |}, t'))
  end.

End nethttp.

Section NewStatusError.

Context {S : Type} (R : io.ReadCloser S).

(** [bytes.TrimSpace] of the standard library. *)
Variable TrimSpace : list byte -> list byte.

Variable room : nat -> nat.

(** [NewStatusError]: the error, and the response afterwards.  [None]:
    the reads did not finish within [fuel]. *)
Definition NewStatusError (fuel : nat) (res : option (Response (S := S)))
    (expected : Z)
  : option (statuserror.StatusError * option (Response (S := S))) :=
  match res with
  | None =>
      Some ({| statuserror.Data := []; statuserror.StatusCode := 0;
               statuserror.Expected := expected |}, None)
  | Some resp =>
      match Body resp with
      | None =>
          Some ({| statuserror.Data := [];
                   statuserror.StatusCode := StatusCode resp;
                   statuserror.Expected := expected |}, Some resp)
      | Some body =>
          match io.ReadAll (nethttp.maxBytesReader_Read (discardReadCloser_Read R))
                           room fuel (nethttp.MaxBytesReader (4 * 1024), body) [] with
          | None => None
          | Some ((b, err), (_, body1)) =>
              match discardReadCloser_Close R fuel body1 with
              | None => None
              | Some (_, body2) =>
                  Some ({| statuserror.Data :=
                             match err with
                             | None => TrimSpace b
                             | Some _ => []
                             end;
                           statuserror.StatusCode := StatusCode resp;
                           statuserror.Expected := expected |},
                        Some {| StatusCode := StatusCode resp;
                                Header := Header resp;
                                Body := Some body2 |})
              end
          end
      end
  end.

End NewStatusError.

(** * Requests *)

(** How a call ends: it returns, or it panics. *)
Inductive outcome (A : Type) : Type :=
  | Returned (a : A)
  | Panicked.
Arguments Returned {A} a.
Arguments Panicked {A}.

Section Request.

Variable Encode : gmap string (list string) -> string.

(** [Request.SetBody]: the request afterwards, its [ContentLength] and the
    error.  The [GetBody] field of the embedded request is [r.body] when
    that is not nil, the only case in which [doRequest] calls it. *)
Definition SetBody (r : Request) (v : any) : (Request * Z) * option error :=
  let '((fn, n, err), obj) := GetBody Encode v in
  (({| req_Header := req_Header r; body := fn;
       body_obj := default (body_obj r) obj |}, n), err).

(** [NewRequest]: the request and its [ContentLength].  [httpReq] is the
    error of [http.NewRequestWithContext], if it failed. *)
Definition NewRequest (httpReq : option error) (v : any) : result (Request * Z) :=
  match httpReq with
  | Some err => Err err
  | None =>
      let '(req, err) :=
        SetBody {| req_Header := ∅; body := None; body_obj := NewReader [] |} v in
      match err with
      | Some err => Err err
      | None => Ok req
      end
  end.

(** [Request.WriteTo] into a writer that takes every byte, as a
    [bytes.Buffer] does: [io.Copy] appends what it reads up to the end of
    the stream, in the chunks [room] gives.  Calling the nil [r.body]
    panics.  [None]: the copy did not finish within [fuel] reads. *)
Definition WriteTo (room : nat -> nat) (fuel : nat) (r : Request) (w : list byte)
  : option (outcome (Z * option error) * Request * list byte) :=
  let with_obj (o : ReadSeeker) :=
    {| req_Header := req_Header r; body := body r; body_obj := o |} in
  match body r with
  | None => Some (Panicked, r, w)
  | Some fn =>
      let '((stream, err), o) := fn (body_obj r) in
      match err with
      | Some err => Some (Returned (0, Some err), with_obj o, w)
      | None =>
          match io.ReadAll Stream_Read room fuel (stream, o) [] with
          | None => None
          | Some ((bs, err), (_, o')) =>
              Some (Returned (Z.of_nat (length bs), err), with_obj o', app w bs)
          end
      end
  end.

End Request.

(** The request holds the same body as [req0], in whatever position
    earlier reads left it. *)
Definition same_body (req0 req1 : Request) : Prop :=
  body req1 = body req0
  /\ rs_data (body_obj req1) = rs_data (body_obj req0)
  /\ rs_seek_err (body_obj req1) = rs_seek_err (body_obj req0).

(** * Options of the client *)

Section ClientOptions.

Context {S : Type}.

(** [*http.Transport], [http.RoundTripper], [CheckRedirectFunc] and
    [http.CookieJar] values.  A function that configures a transport in
    place is written as a function from the transport before to the
    transport after. *)
Variables http_Transport http_RoundTripper CheckRedirectFunc http_CookieJar : Type.

(** What [defaultTransport] builds. *)
Variable defaultTransport : http_Transport.

(** A transport used as a round tripper. *)
Variable of_Transport : http_Transport -> http_RoundTripper.

(** The options of the package for [options].  [OnError] stores its
    function, and [setDefaults] puts the default hook in place of nil. *)
Inductive Option : Type :=
  | WithDefaultHeader (k : httpheader.Key) (v : string)
  | WithDefaultHeaders (h : option (gmap httpheader.Key string))
  | MaxAttempts (maxAttempts : nat)
  | MinRetryAfter (d : time.Duration)
  | MaxRetryAfter (d : time.Duration)
  | OnError (fn : option (error -> option error))
  | OnErrorResponse
      (fn : option (Response (S := S) -> option error * Response (S := S))).

(** [Option.apply], with [setDefaults] applied to the hook. *)
Definition Option_apply (opt : Option) (o : options (S := S)) : options (S := S) :=
  match opt with
  | WithDefaultHeader k v =>
      {| defaultHeaders := Some (<[k := v]> (default ∅ (defaultHeaders o)));
         backoff := backoff o; maxAttempts := maxAttempts o;
         minRetryAfter := minRetryAfter o; maxRetryAfter := maxRetryAfter o;
         onError := onError o; onErrorResponse := onErrorResponse o |}
  | WithDefaultHeaders h =>
      {| defaultHeaders := h;
         backoff := backoff o; maxAttempts := maxAttempts o;
         minRetryAfter := minRetryAfter o; maxRetryAfter := maxRetryAfter o;
         onError := onError o; onErrorResponse := onErrorResponse o |}
  | MaxAttempts n =>
      {| defaultHeaders := defaultHeaders o;
         backoff := backoff o; maxAttempts := n;
         minRetryAfter := minRetryAfter o; maxRetryAfter := maxRetryAfter o;
         onError := onError o; onErrorResponse := onErrorResponse o |}
  | MinRetryAfter d =>
      {| defaultHeaders := defaultHeaders o;
         backoff := backoff o; maxAttempts := maxAttempts o;
         minRetryAfter := d; maxRetryAfter := maxRetryAfter o;
         onError := onError o; onErrorResponse := onErrorResponse o |}
  | MaxRetryAfter d =>
      {| defaultHeaders := defaultHeaders o;
         backoff := backoff o; maxAttempts := maxAttempts o;
         minRetryAfter := minRetryAfter o; maxRetryAfter := d;
         onError := onError o; onErrorResponse := onErrorResponse o |}
  | OnError fn =>
      {| defaultHeaders := defaultHeaders o;
         backoff := backoff o; maxAttempts := maxAttempts o;
         minRetryAfter := minRetryAfter o; maxRetryAfter := maxRetryAfter o;
         onError := default (fun err => Some err) fn;
         onErrorResponse := onErrorResponse o |}
  | OnErrorResponse fn =>
      {| defaultHeaders := defaultHeaders o;
         backoff := backoff o; maxAttempts := maxAttempts o;
         minRetryAfter := minRetryAfter o; maxRetryAfter := maxRetryAfter o;
         onError := onError o; onErrorResponse := fn |}
  end.

Record clientOptions : Type := {
  transport : option http_Transport;
  roundTripper : option (http_RoundTripper -> http_RoundTripper);
  checkRedirect : option CheckRedirectFunc;
  timeout : time.Duration;
  cookieJar : option http_CookieJar
}.

(** The fields of [http.Client]. *)
Record http_Client : Type := {
  client_Transport : http_RoundTripper;
  client_CheckRedirect : option CheckRedirectFunc;
  client_Jar : option http_CookieJar;
  client_Timeout : time.Duration
}.

(** [clientOptions.Client]: the client, and the options afterwards. *)
Definition clientOptions_Client (o : clientOptions) : http_Client * clientOptions :=
  let t := default defaultTransport (transport o) in
  let rt :=
    match roundTripper o with
    | Some f => f (of_Transport t)
    | None => of_Transport t
    end in
  ({| client_Transport := rt;
      client_CheckRedirect := checkRedirect o;
      client_Jar := cookieJar o;
      client_Timeout := timeout o |},
   {| transport := Some t; roundTripper := roundTripper o;
      checkRedirect := checkRedirect o; timeout := timeout o;
      cookieJar := cookieJar o |}).

(** What [NewClient] accepts: an [Option], or one of the options of the
    package for [clientOptions]. *)
Inductive ClientOption : Type :=
  | of_Option (opt : Option)
  | SetTransport (t : option http_Transport)
  | WithTransport (fn : http_Transport -> http_Transport)
  | WithRoundTripper (rtFunc : option (http_RoundTripper -> http_RoundTripper))
  | CheckRedirect (fn : option CheckRedirectFunc)
  | WithCookieJar (jar : option http_CookieJar)
  | WithTimeout (d : time.Duration).

(** [ClientOption.applyClient]; an [Option] does nothing here. *)
Definition applyClient (opt : ClientOption) (o : clientOptions) : clientOptions :=
  match opt with
  | of_Option _ => o
  | SetTransport t =>
      {| transport := t; roundTripper := roundTripper o;
         checkRedirect := checkRedirect o; timeout := timeout o;
         cookieJar := cookieJar o |}
  | WithTransport fn =>
      {| transport := Some (fn (default defaultTransport (transport o)));
         roundTripper := roundTripper o;
         checkRedirect := checkRedirect o; timeout := timeout o;
         cookieJar := cookieJar o |}
  | WithRoundTripper rtFunc =>
      {| transport := transport o; roundTripper := rtFunc;
         checkRedirect := checkRedirect o; timeout := timeout o;
         cookieJar := cookieJar o |}
  | CheckRedirect fn =>
      {| transport := transport o; roundTripper := roundTripper o;
         checkRedirect := fn; timeout := timeout o;
         cookieJar := cookieJar o |}
  | WithCookieJar jar =>
      {| transport := transport o; roundTripper := roundTripper o;
         checkRedirect := checkRedirect o; timeout := timeout o;
         cookieJar := jar |}
  | WithTimeout d =>
      {| transport := transport o; roundTripper := roundTripper o;
         checkRedirect := checkRedirect o; timeout := d;
         cookieJar := cookieJar o |}
  end.

(** One turn of the loop of [NewClient]. *)
Definition NewClient_step (st : options (S := S) * clientOptions) (clientOpt : ClientOption)
  : options (S := S) * clientOptions :=
  match clientOpt with
  | of_Option opt => (Option_apply opt st.1, st.2)
  | _ => (st.1, applyClient clientOpt st.2)
  end.

Record Client : Type := {
  Client_options : options (S := S);
  Client_client : http_Client;
  Client_transport : option http_Transport
}.

(** [NewClient]; the [transport] field is read after the call of
    [Client], as the compiler orders the two. *)
Definition NewClient (opts : list ClientOption) : Client :=
  let '(o, co) :=
    fold_left NewClient_step opts
      (newOptions,
       {| transport := None; roundTripper := None; checkRedirect := None;
          timeout := 0; cookieJar := None |}) in
  let '(h, co') := clientOptions_Client co in
  {| Client_options := o; Client_client := h; Client_transport := transport co' |}.

(** The options that set or configure the transport. *)
Definition transport_option (opt : ClientOption) : bool :=
  match opt with
  | SetTransport _ | WithTransport _ => true
  | _ => false
  end.

(** The options that set the round tripper. *)
Definition round_tripper_option (opt : ClientOption) : bool :=
  match opt with
  | WithRoundTripper _ => true
  | _ => false
  end.

End ClientOptions.

Arguments WithDefaultHeader {S} k v.
Arguments WithDefaultHeaders {S} h.
Arguments MaxAttempts {S} maxAttempts.
Arguments MinRetryAfter {S} d.
Arguments MaxRetryAfter {S} d.
Arguments OnError {S} fn.
Arguments OnErrorResponse {S} fn.
Arguments transport {_ _ _ _} _.
Arguments roundTripper {_ _ _ _} _.
Arguments checkRedirect {_ _ _ _} _.
Arguments timeout {_ _ _ _} _.
Arguments cookieJar {_ _ _ _} _.
Arguments client_Transport {_ _ _} _.
Arguments client_CheckRedirect {_ _ _} _.
Arguments client_Jar {_ _ _} _.
Arguments client_Timeout {_ _ _} _.
Arguments clientOptions_Client {_ _ _ _} defaultTransport of_Transport o.
Arguments of_Option {_ _ _ _ _} opt.
Arguments SetTransport {_ _ _ _ _} t.
Arguments WithTransport {_ _ _ _ _} fn.
Arguments WithRoundTripper {_ _ _ _ _} rtFunc.
Arguments CheckRedirect {_ _ _ _ _} fn.
Arguments WithCookieJar {_ _ _ _ _} jar.
Arguments WithTimeout {_ _ _ _ _} d.
Arguments applyClient {_ _ _ _ _} defaultTransport opt o.
Arguments NewClient_step {_ _ _ _ _} defaultTransport st clientOpt.
Arguments Client_options {_ _ _ _ _} _.
Arguments Client_client {_ _ _ _ _} _.
Arguments Client_transport {_ _ _ _ _} _.
Arguments NewClient {_ _ _ _ _} defaultTransport of_Transport opts.
Arguments transport_option {_ _ _ _ _} opt.
Arguments round_tripper_option {_ _ _ _ _} opt.
(* ===================================================================== *)
(** ** Concrete inputs                                                    *)
(* ===================================================================== *)

(** A stand-in for [http.ParseTime] that knows one date; used to run the
    parser on concrete inputs. *)
Definition ParseTime_table (v : string) : result time.Time :=
  if String.eqb v "Wed, 21 Oct 2015 07:28:00 GMT"
  then Ok (1445412480 * time.Second)
  else Err (errorString "parsing time: cannot parse").


(** Dialers of the package's tests: prefix lists only, and one toggle. *)
Definition dialer_prefixes (allowed blocked : list netip.Prefix)
  : nxdial.RestrictedDialer :=
  {| nxdial.AllowedPrefixes := allowed;
     nxdial.BlockedPrefixes := blocked;
     nxdial.IsPrivate := false;
     nxdial.IsLoopback := false;
     nxdial.IsLinkLocalUnicast := false;
     nxdial.IsLinkLocalMulticast := false;
     nxdial.IsInterfaceLocalMulticast := false |}.

Definition prefix_1_1_1_1 : netip.Prefix :=
  netip.PrefixFrom (netip.AddrFrom4 1 1 1 1) 32.

Definition prefix_all4 : netip.Prefix :=
  netip.PrefixFrom (netip.AddrFrom4 0 0 0 0) 0.

Definition prefix_all6 : netip.Prefix :=
  netip.PrefixFrom (netip.AddrFrom8 [0; 0; 0; 0; 0; 0; 0; 0]) 0.

(** blocked = [0.0.0.0/0, ::/0], allowed = [1.1.1.1/32]. *)
Definition dialer_allow_one : nxdial.RestrictedDialer :=
  dialer_prefixes [prefix_1_1_1_1] [prefix_all4; prefix_all6].

(** Only [IsPrivate] enabled. *)
Definition dialer_private_only : nxdial.RestrictedDialer :=
  {| nxdial.AllowedPrefixes := [];
     nxdial.BlockedPrefixes := [];
     nxdial.IsPrivate := true;
     nxdial.IsLoopback := false;
     nxdial.IsLinkLocalUnicast := false;
     nxdial.IsLinkLocalMulticast := false;
     nxdial.IsInterfaceLocalMulticast := false |}.

Definition addr_fc00_1 : netip.Addr :=
  netip.AddrFrom8 [64512; 0; 0; 0; 0; 0; 0; 1].

(** fe80::1%eth0 *)
Definition addr_fe80_1_eth0 : netip.Addr :=
  netip.WithZone (netip.AddrFrom8 [65152; 0; 0; 0; 0; 0; 0; 1]) "eth0".

(** A network with one host: every dial reaches 10.0.0.1:80. *)
Definition dial_internal (network addr : string) : result nxdial.Conn :=
  Ok {| nxdial.conn_id := 1; nxdial.RemoteAddr := "10.0.0.1:80" |}.

(** A stand-in for [netip.ParseAddrPort] that knows two addresses. *)
Definition ParseAddrPort_table (s : string) : result netip.AddrPort :=
  if String.eqb s "10.0.0.1:80"
  then Ok (netip.AddrPortFrom (netip.AddrFrom4 10 0 0 1) 80)
  else if String.eqb s "1.1.1.1:443"
  then Ok (netip.AddrPortFrom (netip.AddrFrom4 1 1 1 1) 443)
  else Err (errorString "not an ip:port").

(** A dial over a Unix socket: the remote address is a path. *)
Definition dial_unix (network addr : string) : result nxdial.Conn :=
  Ok {| nxdial.conn_id := 2; nxdial.RemoteAddr := "/run/app.sock" |}.

(** A response body held in memory, as an [io.ReadCloser]: reading
    advances the offset, closing does nothing. *)
Definition memory_body : io.ReadCloser ReadSeeker :=
  {| io.Read := ReadSeeker_Read; io.Close := fun r => (None, r) |}.

(** A body of 20000 zero bytes, freshly wrapped. *)
Definition body_20000 : discardReadCloser (S := ReadSeeker) :=
  {| ReadCloser_ := (NewReader (repeat x00 (Z.to_nat 20000)), []); eof := false |}.

(** A body of three bytes, freshly wrapped. *)
Definition body_abc : discardReadCloser (S := ReadSeeker) :=
  {| ReadCloser_ := (NewReader [x61; x62; x63], []); eof := false |}.

(** A stand-in for [url.Values.Encode]. *)
Definition Encode_fixed (v : gmap string (list string)) : string := "a=1&b=2".

(** A file of five bytes whose Stat reported three, seekable. *)
Definition file_abcde : any :=
  any_SeekableFile
    {| rs_data := [x61; x62; x63; x64; x65]; rs_off := 2; rs_seek_err := None |}
    (Ok 3).

(** Read buffers of 512 bytes. *)
Definition room_512 (len : nat) : nat := 512.

(** Runs of the client.  Response bodies are opaque streams. *)
Definition plain_response (status : Z) (retry_after : option string)
    (stream : option unit) : http_Response (S := unit) :=
  {| res_StatusCode := status;
     res_Header := match retry_after with
                   | Some v => {[ httpheader.RetryAfter := [v] ]}
                   | None => ∅
                   end;
     res_Body := stream |}.

(** A server that answers the listed responses in turn, then [last];
    the context is never cancelled and the clock stands still. *)
Definition server (answers : list (result (http_Response (S := unit))))
    (last : result (http_Response (S := unit))) : World (S := unit) :=
  {| ctx_Err := fun _ => None;
     send := fun i _ o => (nth i answers last, o);
     clock := fun _ => 1761868800 * time.Second |}.

Definition request_without_body : Request :=
  {| req_Header := ∅; body := None; body_obj := NewReader [] |}.

(** A request whose body is a reader that cannot seek: every open fails
    with a timeout error, as [os.ErrDeadlineExceeded] is. *)
Definition request_unseekable : Request :=
  {| req_Header := ∅;
     body := Some bodyFuncFromReadSeeker;
     body_obj := {| rs_data := [x61]; rs_off := 0;
                    rs_seek_err := Some (netError "seek: i/o timeout" true) |} |}.

(** The default options with the Retry-After maximum set to zero. *)
Definition options_no_maximum : options (S := unit) :=
  {| defaultHeaders := None;
     backoff := nxretry.Exponential 2 (1 * time.Second) (5 * time.Second);
     maxAttempts := 3;
     minRetryAfter := 3 * time.Second;
     maxRetryAfter := 0;
     onError := fun err => Some err;
     onErrorResponse := None |}.

(** A request whose body cannot seek for a reason that is no timeout. *)
Definition request_closed_file : Request :=
  {| req_Header := ∅;
     body := Some bodyFuncFromReadSeeker;
     body_obj := {| rs_data := [x61]; rs_off := 0;
                    rs_seek_err := Some (errorString "seek: file already closed") |} |}.

(** The default retrier after [n] attempts were handed out. *)
Definition retrier_after (n : nat) : nxretry.Retrier :=
  {| nxretry.maxAttempts := 3;
     nxretry.backoff := nxretry.Exponential 2 (1 * time.Second) (5 * time.Second);
     nxretry.attempt := n;
     nxretry.override := None |}.

(** The state of the loop when an attempt starts with nothing held. *)
Definition loop_state (rq : Request) (n : nat) (tr : list Event)
  : LoopState (S := unit) :=
  {| r := None; doErr := None; rty := retrier_after n; req := rq;
     trace := tr; discarded := [] |}.

(** The responses of the runs, as [doRequest] wraps them. *)
Definition wrapped (status : Z) (retry_after : option string) (stream : option unit)
  : Response (S := unit) :=
  {| StatusCode := status;
     Header := res_Header (plain_response status retry_after stream);
     Body := option_map (fun s => {| ReadCloser_ := (s, []); eof := false |}) stream |}.

(** A server that answers 503 and then 200, both with a body. *)
Definition server_503_then_200 : World (S := unit) :=
  server [Ok (plain_response 503 None (Some tt))]
         (Ok (plain_response 200 None (Some tt))).

(** The state [Do] returns against that server. *)
Definition state_503_then_200 : LoopState (S := unit) :=
  {| r := Some (wrapped 200 None (Some tt));
     doErr := None;
     rty := retrier_after 2;
     req := request_without_body;
     trace := [EvRoundTrip 0; EvSleep (1 * time.Second); EvRoundTrip 1];
     discarded := [wrapped 503 None (Some tt)] |}.

(** Options whose error-response hook rejects every response. *)
Definition options_rejecting : options (S := unit) :=
  {| defaultHeaders := None;
     backoff := nxretry.Exponential 2 (1 * time.Second) (5 * time.Second);
     maxAttempts := 3;
     minRetryAfter := 3 * time.Second;
     maxRetryAfter := 30 * time.Second;
     onError := fun err => Some err;
     onErrorResponse := Some (fun resp => (Some (errorString "rejected"), resp)) |}.

(** Options with two default headers. *)
Definition options_with_headers : options (S := unit) :=
  {| defaultHeaders := Some {[ "User-Agent" := "nx"; "Accept" := "*/*" ]};
     backoff := nxretry.Exponential 2 (1 * time.Second) (5 * time.Second);
     maxAttempts := 3;
     minRetryAfter := 3 * time.Second;
     maxRetryAfter := 30 * time.Second;
     onError := fun err => Some err;
     onErrorResponse := None |}.

(** A request that sets Accept itself. *)
Definition request_accept_json : Request :=
  {| req_Header := {[ "Accept" := ["application/json"] ]};
     body := None; body_obj := NewReader [] |}.

(** A header map with one key. *)
Definition header_accept : httpheader_map.Header :=
  Some {[ "Accept" := ["text/html"; "text/plain"] ]}.
(* ===================================================================== *)
(** * Properties                                                          *)
(* ===================================================================== *)

Local Open Scope list_scope.

(** ** Fixed-width arithmetic *)

Lemma wrap_u64_small (x : Z) : 0 <= x < 2 ^ 64 -> wrap_u64 x = x.
Proof. intros H. unfold wrap_u64. now apply Z.mod_small. Qed.

Lemma wrap_i64_small (x : Z) : - 2 ^ 63 <= x < 2 ^ 63 -> wrap_i64 x = x.
Proof.
  intros H. unfold wrap_i64.
  rewrite Z.mod_small; [lia|].
  change (2 ^ 64) with (2 ^ 63 + 2 ^ 63). lia.
Qed.

(** ** strconv *)

Lemma is_digit_range (c : ascii) :
  strconv.is_digit c = true -> 0 <= strconv.digit c <= 9.
Proof. unfold strconv.is_digit, strconv.digit. lia. Qed.

Lemma digits_value_mono (s : string) (acc : Z) :
  all_digits s = true -> 0 <= acc -> acc <= digits_value s acc.
Proof.
  revert acc. induction s as [|c rest IH]; intros acc Hd Hacc; simpl in *; [lia|].
  apply andb_prop in Hd as [Hc Hrest].
  pose proof (is_digit_range c Hc).
  specialize (IH (acc * 10 + strconv.digit c) Hrest). lia.
Qed.

(** The digit loop computes the value of the numeral, or reports a range
    error when that value does not fit 64 bits. *)
Lemma ParseUint_loop_digits (s : string) (n : Z) :
  all_digits s = true -> 0 <= n < 2 ^ 64 ->
  strconv.ParseUint_loop s n =
    if digits_value s n <? 2 ^ 64 then (digits_value s n, None)
    else (strconv.maxUint64, Some strconv.ErrRange).
Proof.
  revert n. induction s as [|c rest IH]; intros n Hd Hn; simpl in *.
  - destruct (Z.ltb_spec n (2 ^ 64)); [reflexivity | lia].
  - apply andb_prop in Hd as [Hc Hrest]. rewrite Hc.
    pose proof (is_digit_range c Hc) as Hdig.
    pose proof (digits_value_mono rest (n * 10 + strconv.digit c) Hrest) as Hmono.
    assert (Hcut : strconv.cutoff10 = 1844674407370955162) by reflexivity.
    assert (Hpow : 2 ^ 64 = 18446744073709551616) by reflexivity.
    destruct (Z.leb_spec strconv.cutoff10 n) as [Hge|Hlt].
    + destruct (Z.ltb_spec (digits_value rest (n * 10 + strconv.digit c)) (2 ^ 64));
        [lia | reflexivity].
    + rewrite (wrap_u64_small (n * 10)) by lia.
      destruct (Z.ltb_spec (n * 10 + strconv.digit c) (2 ^ 64)) as [Hfit|Hover].
      * rewrite (wrap_u64_small (n * 10 + strconv.digit c)) by lia.
        destruct (Z.ltb_spec (n * 10 + strconv.digit c) (n * 10)); [lia|].
        destruct (Z.ltb_spec strconv.maxUint64 (n * 10 + strconv.digit c)) as [Hm|_];
          [unfold strconv.maxUint64 in Hm; lia|].
        simpl. apply IH; [assumption | lia].
      * assert (Hw : wrap_u64 (n * 10 + strconv.digit c)
                     = n * 10 + strconv.digit c - 2 ^ 64).
        { unfold wrap_u64.
          symmetry. apply (Z.mod_unique _ _ 1); lia. }
        rewrite Hw.
        destruct (Z.ltb_spec (n * 10 + strconv.digit c - 2 ^ 64) (n * 10)); [|lia].
        simpl.
        destruct (Z.ltb_spec (digits_value rest (n * 10 + strconv.digit c)) (2 ^ 64));
          [lia | reflexivity].
Qed.

(** A byte that is not a digit makes the loop fail. *)
Lemma ParseUint_loop_not_digits (s : string) (n : Z) :
  all_digits s = false -> (strconv.ParseUint_loop s n).2 <> None.
Proof.
  revert n. induction s as [|c rest IH]; intros n Hd; simpl in *; [discriminate|].
  destruct (strconv.is_digit c); simpl in *; [|discriminate].
  destruct (strconv.cutoff10 <=? n); [discriminate|].
  match goal with |- context [if ?b then _ else _] => destruct b end;
    [discriminate | now apply IH].
Qed.

Lemma ParseUint_digits (s : string) :
  s <> "" -> all_digits s = true ->
  strconv.ParseUint s =
    if digits_value s 0 <? 2 ^ 64 then (digits_value s 0, None)
    else (strconv.maxUint64, Some strconv.ErrRange).
Proof.
  intros Hne Hd. destruct s as [|c rest]; [congruence|].
  unfold strconv.ParseUint. apply ParseUint_loop_digits; [assumption|lia].
Qed.

Lemma digit_not_sign (c : ascii) :
  strconv.is_digit c = true ->
  Ascii.eqb c "+"%char = false /\ Ascii.eqb c "-"%char = false.
Proof.
  intros Hc. split; apply Ascii.eqb_neq; intros ->; discriminate.
Qed.

(** A numeral that fits an int64 parses to its value. *)
Lemma ParseInt_decimal (s : string) (n : Z) :
  decimal s n -> n <= maxInt64 -> strconv.ParseInt s = (n, None).
Proof.
  intros (Hne & Hd & Hv) Hn.
  pose proof (ParseUint_digits s Hne Hd) as HU.
  pose proof (digits_value_mono s 0 Hd ltac:(lia)) as Hpos.
  destruct s as [|c rest]; [congruence|].
  unfold strconv.ParseInt.
  assert (Hc : strconv.is_digit c = true) by (simpl in Hd; now apply andb_prop in Hd).
  destruct (digit_not_sign c Hc) as [-> ->].
  rewrite HU, Hv.
  unfold maxInt64 in Hn.
  assert (Hpow : 2 ^ 64 = 2 ^ 63 + 2 ^ 63) by reflexivity.
  assert (0 < 2 ^ 63) by reflexivity.
  destruct (Z.ltb_spec n (2 ^ 64)); [|lia].
  cbv zeta. simpl negb. rewrite andb_true_l.
  destruct (Z.leb_spec (2 ^ 63) n); [lia|].
  rewrite andb_false_l.
  rewrite wrap_i64_small by lia. reflexivity.
Qed.

(** A numeral beyond the int64 range is a range error. *)
Lemma ParseInt_decimal_range (s : string) (n : Z) :
  decimal s n -> maxInt64 < n -> (strconv.ParseInt s).2 = Some strconv.ErrRange.
Proof.
  intros (Hne & Hd & Hv) Hn.
  pose proof (ParseUint_digits s Hne Hd) as HU.
  destruct s as [|c rest]; [congruence|].
  unfold strconv.ParseInt.
  assert (Hc : strconv.is_digit c = true) by (simpl in Hd; now apply andb_prop in Hd).
  destruct (digit_not_sign c Hc) as [-> ->].
  rewrite HU, Hv.
  unfold maxInt64 in Hn.
  assert (Hpow : 2 ^ 64 = 2 ^ 63 + 2 ^ 63) by reflexivity.
  assert (Hmax : strconv.maxUint64 = 2 ^ 63 + 2 ^ 63 - 1) by reflexivity.
  assert (0 < 2 ^ 63) by reflexivity.
  destruct (Z.ltb_spec n (2 ^ 64)); cbv zeta; simpl negb; rewrite andb_true_l.
  - destruct (Z.leb_spec (2 ^ 63) n); [reflexivity | lia].
  - destruct (Z.leb_spec (2 ^ 63) strconv.maxUint64); [reflexivity | lia].
Qed.

(** A minus sign followed by a numeral: its negation, or a range error. *)
Lemma ParseInt_minus_decimal (s : string) (n : Z) :
  decimal s n ->
  strconv.ParseInt (String "-" s) =
    if n <=? 2 ^ 63 then (- n, None) else (- 2 ^ 63, Some strconv.ErrRange).
Proof.
  intros (Hne & Hd & Hv).
  pose proof (ParseUint_digits s Hne Hd) as HU.
  pose proof (digits_value_mono s 0 Hd ltac:(lia)) as Hpos.
  unfold strconv.ParseInt.
  change (Ascii.eqb "-" "+") with false. change (Ascii.eqb "-" "-") with true.
  cbv iota. rewrite HU, Hv in *.
  assert (Hpow : 2 ^ 64 = 2 ^ 63 + 2 ^ 63) by reflexivity.
  assert (Hmax : strconv.maxUint64 = 2 ^ 63 + 2 ^ 63 - 1) by reflexivity.
  assert (0 < 2 ^ 63) by reflexivity.
  destruct (Z.ltb_spec n (2 ^ 64)); cbv zeta; simpl negb; rewrite andb_false_l, andb_true_l.
  - destruct (Z.ltb_spec (2 ^ 63) n), (Z.leb_spec n (2 ^ 63)); try lia; [reflexivity|].
    destruct (Z.eq_dec n (2 ^ 63)) as [->|Hneq]; [reflexivity|].
    rewrite wrap_i64_small by lia. reflexivity.
  - destruct (Z.ltb_spec (2 ^ 63) strconv.maxUint64), (Z.leb_spec n (2 ^ 63));
      try lia; reflexivity.
Qed.

(** What is not an integer by its syntax is an error for [ParseInt]. *)
Lemma ParseInt_not_integer (s : string) :
  integer_syntax s = false -> (strconv.ParseInt s).2 <> None.
Proof.
  intros Hs. destruct s as [|c rest]; [discriminate|].
  unfold strconv.ParseInt. unfold integer_syntax in Hs.
  assert (HU : forall d, (d = "" \/ all_digits d = false) ->
                 (strconv.ParseUint d).2 = Some strconv.ErrSyntax
                 \/ (strconv.ParseUint d).2 = Some strconv.ErrRange).
  { intros d [->|Hd]; [now left|].
    pose proof (ParseUint_loop_not_digits d 0 Hd) as Hl.
    destruct d; [discriminate|]. unfold strconv.ParseUint.
    destruct (strconv.ParseUint_loop _ 0) as [v [[]|]]; simpl in *; auto; congruence. }
  assert (HR : forall un neg,
            (let cutoff := 2 ^ 63 in
             if negb neg && (cutoff <=? un) then (cutoff - 1, Some strconv.ErrRange)
             else if neg && (cutoff <? un) then (- cutoff, Some strconv.ErrRange)
             else (if neg then wrap_i64 (- un) else wrap_i64 un, None)).2 = None ->
            un <> strconv.maxUint64).
  { intros un neg Hn ->. destruct neg; vm_compute in Hn; discriminate. }
  assert (HUmax : forall d, (strconv.ParseUint d).2 = Some strconv.ErrRange ->
                            (strconv.ParseUint d).1 = strconv.maxUint64).
  { intros d. destruct d as [|c' d']; [discriminate|]. unfold strconv.ParseUint.
    generalize (String c' d') 0. clear.
    intros s. induction s as [|c rest IH]; intros n; simpl; [discriminate|].
    destruct (strconv.is_digit c); [|discriminate].
    destruct (strconv.cutoff10 <=? n); [reflexivity|].
    match goal with |- context [if ?b then _ else _] => destruct b end;
      [reflexivity | apply IH]. }
  set (digits := if Ascii.eqb c "+" then (false, rest)
                 else if Ascii.eqb c "-" then (true, rest) else (false, String c rest)).
  assert (Hdig : digits.2 = "" \/ all_digits digits.2 = false).
  { subst digits.
    destruct (Ascii.eqb c "+"), (Ascii.eqb c "-"); simpl in *;
      try (destruct (String.eqb_spec rest ""); simpl in Hs; auto); auto. }
  destruct digits as [neg ds]. simpl in Hdig.
  destruct (HU ds Hdig) as [He|He];
    destruct (strconv.ParseUint ds) as [un err] eqn:EU; simpl in He; subst err.
  - simpl. discriminate.
  - pose proof (HUmax ds) as Hm. rewrite EU in Hm. specialize (Hm eq_refl).
    simpl in Hm. intros Hn. exact (HR un neg Hn Hm).
Qed.

(** ** Retry-After parsing *)

Section RetryAfter.

Variable ParseTime : string -> result time.Time.
Variable now : time.Time.

(** HTTP dates are neither empty nor integers. *)
Hypothesis ParseTime_dates :
  forall v t, ParseTime v = Ok t -> v <> "" /\ integer_syntax v = false.

Let parse := httpheader.ParseRetryAfter ParseTime now.

Lemma decimal_not_empty (s : string) (n : Z) : decimal s n -> String.eqb s "" = false.
Proof. intros (Hne & _). now apply String.eqb_neq. Qed.

Lemma decimal_integer_syntax (s : string) (n : Z) :
  decimal s n -> integer_syntax s = true.
Proof.
  intros (Hne & Hd & _). destruct s as [|c rest]; [congruence|].
  unfold integer_syntax.
  assert (Hc : strconv.is_digit c = true) by (simpl in Hd; now apply andb_prop in Hd).
  destruct (digit_not_sign c Hc) as [-> ->]. exact Hd.
Qed.

Lemma ParseTime_rejects_integers (v : string) :
  integer_syntax v = true -> exists e, ParseTime v = Err e.
Proof.
  intros Hv. destruct (ParseTime v) as [t|e] eqn:E; [|eauto].
  destruct (ParseTime_dates v t E) as [_ H]. congruence.
Qed.

Lemma ParseRetryAfter_seconds (s : string) (n : Z) :
  decimal s n -> n * time.Second <= maxInt64 ->
  parse s = (n * time.Second, None).
Proof.
  intros Hdec Hn. subst parse. unfold httpheader.ParseRetryAfter.
  rewrite (decimal_not_empty s n Hdec).
  assert (0 <= n).
  { destruct Hdec as (_ & Hd & <-). apply digits_value_mono; [assumption|lia]. }
  unfold time.Second, maxInt64 in *.
  rewrite (ParseInt_decimal s n Hdec) by (unfold maxInt64; lia).
  destruct (Z.ltb_spec n 0); [lia|].
  unfold time.mul, time.Second. rewrite wrap_i64_small; [reflexivity|].
  assert (0 < 2 ^ 63) by reflexivity. lia.
Qed.

Lemma ParseRetryAfter_too_large (s : string) (n : Z) :
  decimal s n -> maxInt64 < n -> exists e, parse s = (0, Some e).
Proof.
  intros Hdec Hn. subst parse. unfold httpheader.ParseRetryAfter.
  rewrite (decimal_not_empty s n Hdec).
  pose proof (ParseInt_decimal_range s n Hdec Hn) as HR.
  destruct (strconv.ParseInt s) as [i err]. simpl in HR. subst err.
  destruct (ParseTime_rejects_integers s (decimal_integer_syntax s n Hdec)) as [e ->].
  eauto.
Qed.

Lemma ParseRetryAfter_negative (s : string) (n : Z) :
  decimal s n -> 0 < n -> exists e, parse (String "-" s) = (0, Some e).
Proof.
  intros Hdec Hn. subst parse. unfold httpheader.ParseRetryAfter.
  change (String.eqb (String "-" s) "") with false. cbv iota.
  rewrite (ParseInt_minus_decimal s n Hdec).
  destruct (Z.leb_spec n (2 ^ 63)).
  - destruct (Z.ltb_spec (- n) 0); [eauto | lia].
  - assert (Hs : integer_syntax (String "-" s) = true).
    { destruct Hdec as (Hne & Hd & _). unfold integer_syntax.
      change (Ascii.eqb "-" "+" || Ascii.eqb "-" "-") with true. cbv iota.
      rewrite Hd. apply String.eqb_neq in Hne. now rewrite Hne. }
    destruct (ParseTime_rejects_integers _ Hs) as [e ->]. eauto.
Qed.

Lemma ParseRetryAfter_date (v : string) (t : time.Time) :
  ParseTime v = Ok t ->
  parse v = if t <? now
            then (0, Some (errorString "nxhttp: Retry-After date is in the past"))
            else (Z.min (t - now) time.maxDuration, None).
Proof.
  intros Ht. destruct (ParseTime_dates v t Ht) as [Hne Hsyn].
  subst parse. unfold httpheader.ParseRetryAfter.
  apply String.eqb_neq in Hne. rewrite Hne.
  pose proof (ParseInt_not_integer v Hsyn) as HI.
  destruct (strconv.ParseInt v) as [i [e|]]; [|simpl in HI; congruence].
  rewrite Ht. unfold time.Until, time.Sub, time.maxDuration, time.minDuration,
    maxInt64, minInt64.
  assert (0 < 2 ^ 63) by reflexivity.
  destruct (Z.ltb_spec (2 ^ 63 - 1) (t - now)), (Z.ltb_spec t now); try lia.
  - destruct (Z.ltb_spec (2 ^ 63 - 1) 0); [lia|]. f_equal. lia.
  - destruct (Z.ltb_spec (t - now) (- 2 ^ 63)).
    + destruct (Z.ltb_spec (- 2 ^ 63) 0); [reflexivity | lia].
    + destruct (Z.ltb_spec (t - now) 0); [reflexivity | lia].
  - destruct (Z.ltb_spec (t - now) (- 2 ^ 63)); [lia|].
    destruct (Z.ltb_spec (t - now) 0); [lia|]. f_equal. lia.
Qed.

Lemma ParseRetryAfter_malformed (v : string) (e : error) :
  v <> "" -> integer_syntax v = false -> ParseTime v = Err e ->
  exists e', parse v = (0, Some e').
Proof.
  intros Hne Hsyn Ht. subst parse. unfold httpheader.ParseRetryAfter.
  apply String.eqb_neq in Hne. rewrite Hne.
  pose proof (ParseInt_not_integer v Hsyn) as HI.
  destruct (strconv.ParseInt v) as [i [e0|]]; [|simpl in HI; congruence].
  rewrite Ht. eauto.
Qed.

(** C4 (amended): [ParseRetryAfter] returns zero and no error for the
    empty string; [n] seconds and no error for a decimal numeral [n]
    whose count of nanoseconds fits an int64; an error for a numeral
    beyond the int64 range; an error for a minus sign followed by a
    positive numeral; for an HTTP date not before now, the time until
    that date, capped at the largest duration; an error for a date in
    the past; and an error for a value that is neither an integer nor a
    date. *)
Theorem ParseRetryAfter_cases :
  parse "" = (0, None)
  /\ (forall s n, decimal s n -> n * time.Second <= maxInt64 ->
        parse s = (n * time.Second, None))
  /\ (forall s n, decimal s n -> maxInt64 < n -> exists e, parse s = (0, Some e))
  /\ (forall s n, decimal s n -> 0 < n ->
        exists e, parse (String "-" s) = (0, Some e))
  /\ (forall v t, ParseTime v = Ok t -> now <= t ->
        parse v = (Z.min (t - now) time.maxDuration, None))
  /\ (forall v t, ParseTime v = Ok t -> t < now -> exists e, parse v = (0, Some e))
  /\ (forall v e, v <> "" -> integer_syntax v = false -> ParseTime v = Err e ->
        exists e', parse v = (0, Some e')).
Proof.
  split; [reflexivity|].
  split; [exact ParseRetryAfter_seconds|].
  split; [exact ParseRetryAfter_too_large|].
  split; [exact ParseRetryAfter_negative|].
  split.
  { intros v t Ht Hle. rewrite (ParseRetryAfter_date v t Ht).
    destruct (Z.ltb_spec t now); [lia | reflexivity]. }
  split.
  { intros v t Ht Hlt. rewrite (ParseRetryAfter_date v t Ht).
    destruct (Z.ltb_spec t now); [eauto | lia]. }
  exact ParseRetryAfter_malformed.
Qed.

End RetryAfter.

Lemma ParseTime_table_dates (v : string) (t : time.Time) :
  ParseTime_table v = Ok t -> v <> "" /\ integer_syntax v = false.
Proof.
  unfold ParseTime_table. destruct (String.eqb_spec v "Wed, 21 Oct 2015 07:28:00 GMT");
    [subst; intros _; split; [discriminate | reflexivity] | discriminate].
Qed.

Lemma decimal_120 : decimal "120" 120.
Proof. repeat split. discriminate. Qed.

(** The cases of C4 on the examples of the specification: "120" is 120
    seconds, a date in the past is an error, "-5" is an error. *)
Lemma ParseRetryAfter_cases_witness :
  let parse := httpheader.ParseRetryAfter ParseTime_table (1761868800 * time.Second) in
  parse "" = (0, None)
  /\ parse "120" = (120 * time.Second, None)
  /\ (exists e, parse "-5" = (0, Some e))
  /\ (exists e, parse "Wed, 21 Oct 2015 07:28:00 GMT" = (0, Some e)).
Proof.
  destruct (ParseRetryAfter_cases ParseTime_table (1761868800 * time.Second)
              ParseTime_table_dates) as (H0 & Hsec & _ & Hneg & _ & Hpast & _).
  split; [exact H0|].
  split; [apply (Hsec "120" 120 decimal_120); vm_compute; discriminate|].
  split.
  { apply (Hneg "5" 5); [repeat split; discriminate | lia]. }
  apply (Hpast _ (1445412480 * time.Second)); [reflexivity | vm_compute; reflexivity].
Defined.

Lemma decimal_20_nines : decimal "99999999999999999999" 99999999999999999999.
Proof. repeat split. discriminate. Qed.

(** C4 as stated fails: "99999999999999999999" is a non-negative integer
    string, and the parser returns an error for it, not that many
    seconds. *)
Lemma ParseRetryAfter_integer_rejected :
  decimal "99999999999999999999" 99999999999999999999
  /\ httpheader.ParseRetryAfter ParseTime_table 0 "99999999999999999999"
     = (0, Some (wrapError "nxhttp: failed to parse Retry-After header from response"
                           (errorString "parsing time: cannot parse")))
  /\ httpheader.ParseRetryAfter ParseTime_table 0 "99999999999999999999"
     <> (99999999999999999999 * time.Second, None).
Proof.
  split; [exact decimal_20_nines|].
  assert (H : httpheader.ParseRetryAfter ParseTime_table 0 "99999999999999999999"
              = (0, Some (wrapError
                            "nxhttp: failed to parse Retry-After header from response"
                            (errorString "parsing time: cannot parse"))))
    by (vm_compute; reflexivity).
  split; [exact H|]. rewrite H. intros [= _ Habs].
Qed.

(** Between the two ranges the multiplication by [time.Second] wraps: the
    numeral 9223372037 fits an int64, its count of nanoseconds does not,
    and the result is a negative duration returned without an error. *)
Example ParseRetryAfter_wraps :
  httpheader.ParseRetryAfter ParseTime_table 0 "9223372037"
  = (-9223372036709551616, None).
Proof. reflexivity. Qed.

(** ** The restricted dialer *)

Lemma lxor_bound (a b n : Z) :
  0 < n -> 0 <= a < 2 ^ n -> 0 <= b < 2 ^ n -> 0 <= Z.lxor a b < 2 ^ n.
Proof.
  intros Hn Ha Hb.
  assert (Hnn : 0 <= Z.lxor a b) by (apply Z.lxor_nonneg; lia).
  split; [assumption|].
  destruct (Z.eq_dec (Z.lxor a b) 0) as [->|Hx]; [lia|].
  apply Z.log2_lt_pow2; [lia|].
  pose proof (Z.log2_lxor a b ltac:(lia) ltac:(lia)) as Hl.
  assert (Hlog : forall x, 0 <= x < 2 ^ n -> Z.log2 x < n).
  { intros x Hx'. destruct (Z.eq_dec x 0) as [->|]; [simpl; lia|].
    apply Z.log2_lt_pow2; lia. }
  pose proof (Hlog a Ha). pose proof (Hlog b Hb). lia.
Qed.

(** Membership of an IPv4 address in an IPv4 prefix, and of a zone-less
    IPv6 address in an IPv6 prefix. *)
Lemma Contains_4_4 (pa bits a : Z) :
  0 <= bits ->
  netip.Contains (netip.PrefixFrom (netip.Addr4 pa) bits) (netip.Addr4 a)
  = (Z.shiftr (Z.lxor a pa) (Z.land (32 - bits) 63) mod 2 ^ 32 =? 0).
Proof.
  intros Hb. unfold netip.Contains, netip.IsValid.
  cbn [netip.Bits netip.Addr_ netip.hasZone netip.BitLen].
  destruct (Z.leb_spec 0 bits); [|lia].
  reflexivity.
Qed.

Lemma Contains_6_6 (pa bits a : Z) :
  0 <= bits ->
  netip.Contains (netip.PrefixFrom (netip.Addr6 pa "") bits) (netip.Addr6 a "")
  = (Z.land (Z.lxor a pa) (netip.mask6 bits) =? 0).
Proof.
  intros Hb. unfold netip.Contains, netip.IsValid.
  cbn [netip.Bits netip.Addr_ netip.hasZone netip.BitLen].
  destruct (Z.leb_spec 0 bits); [|lia].
  reflexivity.
Qed.

(** A /32 prefix contains exactly its own address. *)
Lemma Contains_v4_host (a pa : Z) :
  0 <= a < 2 ^ 32 -> 0 <= pa < 2 ^ 32 ->
  netip.Contains (netip.PrefixFrom (netip.Addr4 pa) 32) (netip.Addr4 a) = (a =? pa).
Proof.
  intros Ha Hpa. rewrite Contains_4_4 by lia.
  change (Z.land (32 - 32) 63) with 0. rewrite Z.shiftr_0_r.
  pose proof (lxor_bound a pa 32 ltac:(lia) Ha Hpa) as Hx.
  rewrite Z.mod_small by exact Hx.
  destruct (Z.eqb_spec a pa) as [->|Hne].
  - rewrite Z.lxor_nilpotent. reflexivity.
  - apply Z.eqb_neq. intros H0. apply (proj1 (Z.lxor_eq_0_iff a pa)) in H0. contradiction.
Qed.

(** 0.0.0.0/0 contains every IPv4 address. *)
Lemma Contains_all4 (a : Z) :
  0 <= a < 2 ^ 32 -> netip.Contains prefix_all4 (netip.Addr4 a) = true.
Proof.
  intros Ha. unfold prefix_all4. change (netip.AddrFrom4 0 0 0 0) with (netip.Addr4 0).
  rewrite Contains_4_4 by lia.
  rewrite Z.lxor_0_r.
  change (Z.land (32 - 0) 63) with 32.
  rewrite Z.shiftr_div_pow2 by lia.
  rewrite Z.div_small by exact Ha. reflexivity.
Qed.

(** ::/0 contains every IPv6 address that has no zone. *)
Lemma Contains_all6 (a : Z) :
  netip.Contains prefix_all6 (netip.Addr6 a "") = true.
Proof.
  unfold prefix_all6.
  change (netip.AddrFrom8 [0; 0; 0; 0; 0; 0; 0; 0]) with (netip.Addr6 0 "").
  rewrite Contains_6_6 by lia.
  change (netip.mask6 0) with 0. rewrite Z.land_0_r. reflexivity.
Qed.

(** An address with a zone, and the zero address, are in no prefix. *)
Lemma Contains_zone (p : netip.Prefix) (ip : netip.Addr) :
  netip.hasZone ip = true \/ ip = netip.AddrZero -> netip.Contains p ip = false.
Proof.
  intros [Hz| ->]; unfold netip.Contains.
  - rewrite Hz, orb_true_r. reflexivity.
  - simpl. destruct (negb (netip.IsValid p)); [reflexivity|].
    simpl. rewrite orb_true_r. reflexivity.
Qed.

Lemma IsAllowed_order (r : nxdial.RestrictedDialer) (addr : netip.Addr) :
  nxdial.IsAllowed r addr =
    if in_any (nxdial.AllowedPrefixes r) addr then true
    else if in_any (nxdial.BlockedPrefixes r) addr then false
    else negb (class_blocked r addr).
Proof.
  unfold nxdial.IsAllowed, class_blocked, in_any.
  destruct (existsb _ (nxdial.AllowedPrefixes r)); [reflexivity|].
  destruct (existsb _ (nxdial.BlockedPrefixes r)); [reflexivity|].
  destruct (nxdial.IsPrivate r && netip.IsPrivate addr); [reflexivity|].
  destruct (nxdial.IsLoopback r && netip.IsLoopback addr); [reflexivity|].
  destruct (nxdial.IsLinkLocalUnicast r && netip.IsLinkLocalUnicast addr); [reflexivity|].
  destruct (nxdial.IsLinkLocalMulticast r && netip.IsLinkLocalMulticast addr);
    [reflexivity|].
  destruct (nxdial.IsInterfaceLocalMulticast r && netip.IsInterfaceLocalMulticast addr);
    reflexivity.
Qed.

Lemma dialer_allow_one_only (addr : netip.Addr) :
  netip.valid_addr addr -> addr <> netip.AddrZero -> netip.hasZone addr = false ->
  nxdial.IsAllowed dialer_allow_one addr = true <-> addr = netip.AddrFrom4 1 1 1 1.
Proof.
  intros Hv Hnz Hzone. rewrite IsAllowed_order.
  change (netip.AddrFrom4 1 1 1 1) with (netip.Addr4 16843009).
  unfold dialer_allow_one, dialer_prefixes, in_any.
  cbn [nxdial.AllowedPrefixes nxdial.BlockedPrefixes existsb].
  destruct addr as [|a|a z]; [congruence| |].
  - cbn [netip.valid_addr] in Hv.
    unfold prefix_1_1_1_1. change (netip.AddrFrom4 1 1 1 1) with (netip.Addr4 16843009).
    assert (H1 : 0 <= 16843009 < 2 ^ 32) by (vm_compute; split; congruence).
    rewrite (Contains_v4_host a 16843009 Hv H1).
    rewrite (Contains_all4 a Hv). rewrite !orb_false_r. cbn [orb].
    destruct (Z.eqb_spec a 16843009) as [->|Hne]; split; try congruence; auto.
  - cbn [netip.hasZone] in Hzone. apply negb_false_iff, String.eqb_eq in Hzone.
    subst z. rewrite (Contains_all6 a), orb_true_r.
    assert (H1 : netip.Contains prefix_1_1_1_1 (netip.Addr6 a "") = false)
      by reflexivity.
    rewrite H1. cbn [orb]. split; discriminate.
Qed.

Lemma dialer_private_only_public (addr : netip.Addr) :
  netip.IsPrivate addr = false -> nxdial.IsAllowed dialer_private_only addr = true.
Proof.
  intros Hp. rewrite IsAllowed_order. unfold class_blocked. simpl. rewrite Hp.
  reflexivity.
Qed.




Section DialContext.

Variable dial : string -> string -> result nxdial.Conn.
Variable ParseAddrPort : string -> result netip.AddrPort.

(** C6: when the underlying dial succeeds with connection [c], a
    disallowed remote address yields [c] together with
    [ErrInternalResolution], and an unparsable remote address yields [c]
    together with the wrapped parse error; in both cases the network saw
    exactly one dial and no close. *)
Theorem DialContext_returns_conn
    (r : nxdial.RestrictedDialer) (network addr : string) (c : nxdial.Conn) :
  dial network addr = Ok c ->
  (forall ap,
      ParseAddrPort (nxdial.RemoteAddr c) = Ok ap ->
      nxdial.IsAllowed r (netip.ap_Addr ap) = false ->
      nxdial.DialContext dial ParseAddrPort r network addr
      = ((Some c, Some nxdial.ErrInternalResolution), [nxdial.OpDial network addr]))
  /\ (forall e,
        ParseAddrPort (nxdial.RemoteAddr c) = Err e ->
        nxdial.DialContext dial ParseAddrPort r network addr
        = ((Some c, Some (wrapError "nxhttp: failed to parse remote address" e)),
           [nxdial.OpDial network addr])).
Proof.
  intros Hdial. unfold nxdial.DialContext. rewrite Hdial. split.
  - intros ap Hap Hno. rewrite Hap, Hno. reflexivity.
  - intros e He. rewrite He. reflexivity.
Qed.

End DialContext.

(** C6 on a dial that lands on 10.0.0.1 under the default dialer, and on a
    dial whose remote address is not an IP address. *)
Lemma DialContext_returns_conn_witness :
  nxdial.DialContext dial_internal ParseAddrPort_table nxdial.NewRestrictedDialer
    "tcp" "example.com:80"
  = ((Some {| nxdial.conn_id := 1; nxdial.RemoteAddr := "10.0.0.1:80" |},
      Some nxdial.ErrInternalResolution),
     [nxdial.OpDial "tcp" "example.com:80"])
  /\ nxdial.DialContext dial_unix ParseAddrPort_table nxdial.NewRestrictedDialer
       "unix" "/run/app.sock"
     = ((Some {| nxdial.conn_id := 2; nxdial.RemoteAddr := "/run/app.sock" |},
         Some (wrapError "nxhttp: failed to parse remote address"
                         (errorString "not an ip:port"))),
        [nxdial.OpDial "unix" "/run/app.sock"]).
Proof.
  split.
  - apply (proj1 (DialContext_returns_conn dial_internal ParseAddrPort_table
                    nxdial.NewRestrictedDialer "tcp" "example.com:80" _ eq_refl)
             (netip.AddrPortFrom (netip.AddrFrom4 10 0 0 1) 80)); reflexivity.
  - apply (proj2 (DialContext_returns_conn dial_unix ParseAddrPort_table
                    nxdial.NewRestrictedDialer "unix" "/run/app.sock" _ eq_refl));
      reflexivity.
Defined.

(** ** Draining on close *)

Lemma bytes_read_app (l1 l2 : list io.Op) :
  io.bytes_read (l1 ++ l2) = io.bytes_read l1 + io.bytes_read l2.
Proof.
  induction l1 as [|[p n|] l1 IH]; simpl; lia.
Qed.

Lemma bytes_read_nonneg (l : list io.Op) : 0 <= io.bytes_read l.
Proof. induction l as [|[p n|] l IH]; simpl; lia. Qed.

Section Drain.

Context {S : Type} (R : io.ReadCloser S).

Hypothesis Hlen : io.respects_len R.

(** One read through the limit: the allowance shrinks by what was read. *)
Lemma LimitedReader_Read_log (N : Z) (st : io.Logged) (n : nat) res N' st' :
  0 <= N ->
  io.LimitedReader_Read (io.call_Read R) N st n = (res, (N', st')) ->
  0 <= N' /\
  exists ops, st'.2 = st.2 ++ ops /\ forallb io.is_OpRead ops = true
              /\ io.bytes_read ops = N - N'
              /\ (N <= 0 -> res.2 = Some EOF)
              /\ (0 < N -> ops = [io.OpRead (if N <? Z.of_nat n then Z.to_nat N else n)
                                            (length res.1)]
                           /\ N' = N - Z.of_nat (length res.1)).
Proof.
  intros HN. unfold io.LimitedReader_Read.
  destruct (Z.leb_spec N 0) as [Hle|Hgt].
  - intros [= <- <- <-]. split; [assumption|]. exists [].
    rewrite app_nil_r. repeat split; simpl; try lia.
  - unfold io.call_Read.
    set (n' := if N <? Z.of_nat n then Z.to_nat N else n).
    pose proof (Hlen st.1 n') as Hl.
    destruct (io.Read R st.1 n') as [[bs err] s'] eqn:E. simpl in Hl.
    intros [= <- <- <-]. simpl.
    assert (Z.of_nat n' <= N).
    { subst n'. destruct (Z.ltb_spec N (Z.of_nat n)); lia. }
    split; [lia|]. eexists. split; [reflexivity|].
    repeat split; simpl; lia.
Qed.

(** The copy reads at most the allowance and performs nothing but reads. *)
Lemma Copy_Discard_log (fuel : nat) (N : Z) (st : io.Logged) (total : Z) res N' st' :
  0 <= N ->
  io.Copy_Discard R fuel N st total = Some (res, (N', st')) ->
  exists ops, st'.2 = st.2 ++ ops /\ forallb io.is_OpRead ops = true
              /\ 0 <= io.bytes_read ops <= N.
Proof.
  revert N st total. induction fuel as [|fuel IH]; intros N st total HN; simpl;
    [discriminate|].
  destruct (io.LimitedReader_Read (io.call_Read R) N st io.blackHole_len)
    as [[bs err] [N1 st1]] eqn:E.
  destruct (LimitedReader_Read_log N st _ _ _ _ HN E) as (HN1 & ops & Hlog & Hops & Hb & _).
  destruct err as [e|].
  - intros [= <- <- <-]. exists ops. pose proof (bytes_read_nonneg ops).
    repeat split; try assumption; lia.
  - intros Hrec. destruct (IH _ _ _ HN1 Hrec) as (ops' & Hlog' & Hops' & Hb').
    exists (ops ++ ops'). rewrite Hlog', Hlog, app_assoc. split; [reflexivity|].
    rewrite forallb_app, Hops, Hops', bytes_read_app.
    pose proof (bytes_read_nonneg ops). split; [reflexivity | lia].
Qed.

(** With a reader that makes progress, the copy ends within one read per
    byte of allowance, plus one. *)
Lemma Copy_Discard_ends (fuel : nat) (N : Z) (st : io.Logged) (total : Z) :
  io.makes_progress R -> 0 <= N -> (Z.to_nat N < fuel)%nat ->
  is_Some (io.Copy_Discard R fuel N st total).
Proof.
  intros Hprog. revert N st total.
  induction fuel as [|fuel IH]; intros N st total HN Hfuel; [lia|]. simpl.
  destruct (io.LimitedReader_Read (io.call_Read R) N st io.blackHole_len)
    as [[bs err] [N1 st1]] eqn:E.
  destruct (LimitedReader_Read_log N st _ _ _ _ HN E)
    as (HN1 & ops & Hlog & Hops & Hb & Hzero & Hpos).
  destruct err as [e|]; [eauto|].
  destruct (Z.leb_spec N 0) as [Hle|Hgt]; [specialize (Hzero Hle); discriminate|].
  apply IH; [assumption|].
  destruct (Hpos Hgt) as [_ ->]. simpl.
  enough (bs <> []) by (destruct bs; [congruence | simpl; lia]).
  revert E. unfold io.LimitedReader_Read, io.call_Read.
  destruct (Z.leb_spec N 0); [lia|].
  set (n' := if N <? Z.of_nat io.blackHole_len then Z.to_nat N else io.blackHole_len).
  assert (0 < n')%nat.
  { subst n'. destruct (Z.ltb_spec N (Z.of_nat io.blackHole_len)); [lia|].
    vm_compute. lia. }
  destruct (Hprog st.1 n' ltac:(assumption)) as [Hd|He];
    destruct (io.Read R st.1 n') as [[bs' err'] s']; cbn [fst snd] in *;
    intros Heq; injection Heq as Hbs Herr _ _; congruence.
Qed.


(** C10: [Close] on a response without a body returns nil and leaves the
    response as it is; nothing is read or closed. *)
Theorem Response_Close_nil_body (fuel : nat) (r : Response (S := S)) :
  Body r = None -> Response_Close R fuel r = Some (None, r).
Proof.
  intros H. unfold Response_Close. rewrite H. reflexivity.
Qed.

End Drain.

Lemma memory_body_respects_len : io.respects_len memory_body.
Proof.
  intros s n. simpl. unfold ReadSeeker_Read.
  destruct (length (rs_data s) <=? rs_off s)%nat; simpl; [lia|].
  rewrite length_take. lia.
Qed.

Lemma memory_body_makes_progress : io.makes_progress memory_body.
Proof.
  intros s n Hn. simpl. unfold ReadSeeker_Read.
  destruct (Nat.leb_spec (length (rs_data s)) (rs_off s)); simpl; [right; discriminate|].
  left. intros Hnil. apply (f_equal (@length byte)) in Hnil.
  rewrite length_take, length_drop in Hnil. simpl in Hnil. lia.
Qed.


(** On 20000 unread bytes the drain stops at the cap: two reads of 8 KiB,
    then the close. *)
Example discardReadCloser_Close_cap :
  option_map (fun res => (ReadCloser_ res.2).2)
    (discardReadCloser_Close memory_body 3 body_20000)
  = Some [io.OpRead io.blackHole_len io.blackHole_len; io.OpRead io.blackHole_len io.blackHole_len; io.OpClose].
Proof. vm_compute. reflexivity. Qed.

(** A body read to its end closes without another read. *)
Example discardReadCloser_Close_after_eof :
  let '(_, b1) := discardReadCloser_Read memory_body body_abc 512 in
  let '(_, b2) := discardReadCloser_Read memory_body b1 512 in
  eof b2 = true
  /\ option_map (fun res => (ReadCloser_ res.2).2)
       (discardReadCloser_Close memory_body 0 b2)
     = Some [io.OpRead 512 3; io.OpRead 512 0; io.OpClose].
Proof. vm_compute. split; reflexivity. Qed.

(** C10 on a response that carries no body. *)
Lemma Response_Close_nil_body_witness :
  Response_Close memory_body 0
    {| StatusCode := 204; Header := ∅; Body := None |}
  = Some (None, {| StatusCode := 204; Header := ∅; Body := None |}).
Proof.
  apply Response_Close_nil_body. reflexivity.
Defined.

(** ** Replaying a request body *)

Lemma take_split {A : Type} (a b : nat) (l : list A) :
  take (a + b) l = take a l ++ take b (drop a l).
Proof.
  revert l. induction a as [|a IH]; intros l; [reflexivity|].
  destruct l as [|x l]; simpl.
  - now rewrite !take_nil.
  - now rewrite IH.
Qed.

Lemma take_drop_length {A : Type} (n : nat) (l : list A) :
  take n l ++ drop (length (take n l)) l = l.
Proof.
  rewrite length_take. destruct (Nat.le_ge_cases n (length l)).
  - rewrite Nat.min_l by assumption. apply take_drop.
  - rewrite Nat.min_r by assumption. rewrite take_ge, drop_all by assumption.
    apply app_nil_r.
Qed.

Section Replay.

Variable room : nat -> nat.
Hypothesis room_positive : forall k, (0 < room k)%nat.

(** Reading a plain stream to its end returns what lies after the offset
    and leaves the object at its end. *)
Lemma ReadAll_Reader (fuel : nat) (r : ReadSeeker) (acc : list byte) :
  (rs_off r <= length (rs_data r))%nat ->
  (length (rs_data r) - rs_off r < fuel)%nat ->
  io.ReadAll Stream_Read room fuel (NopCloser_Reader, r) acc
  = Some ((acc ++ drop (rs_off r) (rs_data r), None),
          (NopCloser_Reader, rewound r (length (rs_data r)))).
Proof.
  revert r acc. induction fuel as [|fuel IH]; intros r acc Hoff Hfuel; [lia|].
  cbn [io.ReadAll]. unfold Stream_Read at 1. cbn [fst snd].
  unfold ReadSeeker_Read.
  destruct (Nat.leb_spec (length (rs_data r)) (rs_off r)) as [Hend|Hmore].
  - cbn. rewrite drop_ge by lia. rewrite app_nil_r.
    assert (rs_off r = length (rs_data r)) as <- by lia.
    destruct r; reflexivity.
  - cbn [io.is_EOF].
    set (bs := take (room (length acc)) (drop (rs_off r) (rs_data r))).
    assert (Hbs : length bs = Nat.min (room (length acc))
                                 (length (rs_data r) - rs_off r)).
    { subst bs. now rewrite length_take, length_drop. }
    pose proof (room_positive (length acc)).
    rewrite IH; cbn [rs_data rs_off]; [|lia|lia].
    unfold rewound. cbn [rs_data rs_seek_err].
    rewrite <- app_assoc. repeat f_equal.
    subst bs. rewrite <- drop_drop. apply take_drop_length.
Qed.

Lemma take_length_take {A : Type} (n : nat) (l : list A) :
  take (length (take n l)) l = take n l.
Proof.
  rewrite length_take. destruct (Nat.le_ge_cases n (length l)).
  - now rewrite Nat.min_l.
  - rewrite Nat.min_r by assumption. now rewrite !take_ge by lia.
Qed.

(** Reading a limited stream to its end returns at most [N] bytes of what
    lies after the offset; the object keeps its content. *)
Lemma ReadAll_LimitReader (fuel : nat) (N : Z) (r : ReadSeeker) (acc : list byte) :
  (rs_off r <= length (rs_data r))%nat ->
  (length (rs_data r) - rs_off r < fuel)%nat ->
  exists st' r',
    io.ReadAll Stream_Read room fuel (NopCloser_LimitReader N, r) acc
    = Some ((acc ++ take (Z.to_nat N) (drop (rs_off r) (rs_data r)), None), (st', r'))
    /\ rs_data r' = rs_data r /\ rs_seek_err r' = rs_seek_err r.
Proof.
  revert N r acc. induction fuel as [|fuel IH]; intros N r acc Hoff Hfuel; [lia|].
  cbn [io.ReadAll]. unfold Stream_Read at 1. cbn [fst snd].
  unfold io.LimitedReader_Read.
  destruct (Z.leb_spec N 0) as [Hle|Hgt].
  - cbn. replace (Z.to_nat N) with 0%nat by lia. rewrite take_0, app_nil_r. eauto.
  - set (n' := if N <? Z.of_nat (room (length acc)) then Z.to_nat N
               else room (length acc)).
    pose proof (room_positive (length acc)) as Hroom.
    assert (Hn' : (0 < n' <= Z.to_nat N)%nat).
    { subst n'. destruct (Z.ltb_spec N (Z.of_nat (room (length acc)))); lia. }
    unfold ReadSeeker_Read.
    destruct (Nat.leb_spec (length (rs_data r)) (rs_off r)) as [Hend|Hmore].
    + cbn. rewrite drop_ge by lia. rewrite take_nil, app_nil_r. eauto.
    + set (l := drop (rs_off r) (rs_data r)).
      set (bs := take n' l).
      assert (Hl : length l = (length (rs_data r) - rs_off r)%nat)
        by (subst l; apply length_drop).
      assert (Hbs : length bs = Nat.min n' (length l)) by (subst bs; apply length_take).
      cbn [io.is_EOF fst snd].
      destruct (IH (N - Z.of_nat (length bs))
                  {| rs_data := rs_data r; rs_off := rs_off r + length bs;
                     rs_seek_err := rs_seek_err r |} (acc ++ bs))
        as (st' & r' & Heq & Hd & Hs); cbn [rs_data rs_off]; [lia|lia|].
      exists st', r'. rewrite Heq. cbn [rs_data rs_off rs_seek_err] in *.
      split; [|split; assumption].
      rewrite <- app_assoc. repeat f_equal.
      rewrite <- drop_drop. fold l.
      replace (Z.to_nat (N - Z.of_nat (length bs)))
        with (Z.to_nat N - length bs)%nat by lia.
      replace (Z.to_nat N) with (length bs + (Z.to_nat N - length bs))%nat at 2 by lia.
      rewrite take_split. f_equal. subst bs. symmetry. apply take_length_take.
Qed.

Lemma open_and_read_ReadSeeker (fuel : nat) (r : ReadSeeker) :
  rs_seek_err r = None -> (length (rs_data r) < fuel)%nat ->
  open_and_read room fuel bodyFuncFromReadSeeker r
  = Some ((rs_data r, None), rewound r (length (rs_data r))).
Proof.
  intros Hseek Hfuel. unfold open_and_read, bodyFuncFromReadSeeker, ReadSeeker_SeekStart.
  rewrite Hseek.
  rewrite ReadAll_Reader; cbn [rs_data rs_off]; [|lia|lia].
  unfold rewound. cbn. try rewrite Hseek. reflexivity.
Qed.

Lemma open_and_read_File (fuel : nat) (n : Z) (r : ReadSeeker) :
  rs_seek_err r = None -> (length (rs_data r) < fuel)%nat ->
  exists r',
    open_and_read room fuel (bodyFuncFromFile n) r
    = Some ((take (Z.to_nat n) (rs_data r), None), r')
    /\ rs_data r' = rs_data r /\ rs_seek_err r' = rs_seek_err r.
Proof.
  intros Hseek Hfuel. unfold open_and_read, bodyFuncFromFile, ReadSeeker_SeekStart.
  rewrite Hseek.
  destruct (ReadAll_LimitReader fuel n
              {| rs_data := rs_data r; rs_off := 0; rs_seek_err := None |} [])
    as (st' & r' & Heq & Hd & Hs); cbn [rs_data rs_off]; [lia|lia|].
  rewrite Heq. cbn [rs_data rs_off rs_seek_err] in Hd, Hs. exists r'.
  split; [reflexivity|]. split; congruence.
Qed.

(** A body function that yields the same content from every state of the
    object with the same content yields it at every replay. *)
Lemma replay_invariant (fuel : nat) (fn : BodyFunc) (data content : list byte) :
  (forall r, rs_data r = data -> rs_seek_err r = None ->
      exists r', open_and_read room fuel fn r = Some ((content, None), r')
                 /\ rs_data r' = data /\ rs_seek_err r' = None) ->
  forall k r, rs_data r = data -> rs_seek_err r = None ->
    exists r', replay room fuel fn k r = Some (repeat (content, None) k, r').
Proof.
  intros Hstep. induction k as [|k IH]; intros r Hd Hs; cbn [replay repeat]; [eauto|].
  destruct (Hstep r Hd Hs) as (r1 & -> & Hd1 & Hs1).
  destruct (IH r1 Hd1 Hs1) as (r2 & ->). eauto.
Qed.

(** C8: for a body built by [GetBody] from bytes, text, form values, a
    seekable file or a seekable reader, opening the body [k] times, each
    stream read to its end before the next open, yields the same content
    [k] times, with no error. *)
Theorem GetBody_replay (Encode : gmap string (list string) -> string)
    (v : any) (fn : BodyFunc) (size : Z) (obj : ReadSeeker) :
  replayable v = true ->
  GetBody Encode v = ((Some fn, size, None), Some obj) ->
  rs_seek_err obj = None ->
  forall k, exists obj',
    replay room (Datatypes.S (length (rs_data obj))) fn k obj
    = Some (repeat (body_content Encode v, None) k, obj').
Proof.
  intros Hv Hget Hseek k.
  assert (Hplain : forall r, fn = bodyFuncFromReadSeeker ->
            body_content Encode v = rs_data r -> obj = r ->
            exists obj', replay room (Datatypes.S (length (rs_data obj))) fn k obj
                         = Some (repeat (body_content Encode v, None) k, obj')).
  { intros r -> Hc ->. rewrite Hc.
    apply (replay_invariant _ _ (rs_data r)); [|reflexivity|assumption].
    intros r0 Hd0 Hs0. eexists. rewrite <- Hd0.
    rewrite open_and_read_ReadSeeker by (rewrite ?Hd0; auto; lia).
    split; [reflexivity|]. cbn. auto. }
  destruct v as [|open m o|f [sz|e]|r m|b|s|vals|t]; try discriminate Hv;
    cbn [GetBody bodyFuncFromReadSeekerSize] in Hget.
  - injection Hget as <- _ <-. cbn [body_content].
    apply (replay_invariant _ _ (rs_data f)); [|reflexivity|assumption].
    intros r0 Hd0 Hs0.
    destruct (open_and_read_File (Datatypes.S (length (rs_data f))) sz r0 Hs0)
      as (r' & Heq & Hd & Hs); [rewrite Hd0; lia|].
    exists r'. rewrite Heq, Hd0. split; [reflexivity|]. split; congruence.
  - injection Hget as <- _ <-. now apply (Hplain r).
  - injection Hget as <- _ <-. now apply (Hplain (NewReader b)).
  - injection Hget as <- _ <-. now apply (Hplain (NewReader (list_byte_of_string s))).
  - injection Hget as <- _ <-.
    now apply (Hplain (NewReader (list_byte_of_string (Encode vals)))).
Qed.

End Replay.

(** C8 on the text "hello" opened three times, and on a file of five bytes
    whose size was three when it was stat'ed. *)
Lemma GetBody_replay_witness :
  (exists obj',
      replay room_512 6 bodyFuncFromReadSeeker 3
        (NewReader (list_byte_of_string "hello"))
      = Some (repeat (list_byte_of_string "hello", None) 3, obj'))
  /\ (exists obj',
        replay room_512 6 (bodyFuncFromFile 3) 2
          {| rs_data := [x61; x62; x63; x64; x65]; rs_off := 2; rs_seek_err := None |}
        = Some (repeat ([x61; x62; x63], None) 2, obj')).
Proof.
  split.
  - apply (GetBody_replay room_512 (fun _ => Nat.lt_0_succ 511) Encode_fixed
             (any_string "hello") bodyFuncFromReadSeeker 5
             (NewReader (list_byte_of_string "hello"))); reflexivity.
  - apply (GetBody_replay room_512 (fun _ => Nat.lt_0_succ 511) Encode_fixed
             file_abcde (bodyFuncFromFile 3) 3
             {| rs_data := [x61; x62; x63; x64; x65]; rs_off := 2;
                rs_seek_err := None |}); reflexivity.
Defined.

(** The streams of one body share the object: of two streams opened in a
    row, the one read second finds the object already at its end. *)
Example streams_share_the_object :
  let r0 := NewReader (list_byte_of_string "hello") in
  let '((s1, _), r1) := bodyFuncFromReadSeeker r0 in
  let '((s2, _), r2) := bodyFuncFromReadSeeker r1 in
  match io.ReadAll Stream_Read room_512 6 (s1, r2) [] with
  | Some ((first, _), (_, r3)) =>
      match io.ReadAll Stream_Read room_512 6 (s2, r3) [] with
      | Some ((second, _), _) =>
          first = list_byte_of_string "hello" /\ second = []
      | None => False
      end
  | None => False
  end.
Proof. vm_compute. split; reflexivity. Qed.

(** ** The retry loop *)

Section ClientProps.

Context {S : Type}.
Variable ParseTime : string -> result time.Time.
Variable w : World (S := S).
Variable c : options (S := S).

(** [doRequest] returns either a freshly wrapped response or an error. *)
Lemma doRequest_cases (i : nat) (rq : Request) :
  match doRequest w i rq with
  | ((Some resp, None), _, _) => as_received resp
  | ((None, Some _), _, _) => True
  | _ => False
  end.
Proof.
  unfold doRequest. destruct (body rq) as [fn|].
  - destruct (fn (body_obj rq)) as [[stream [e|]] o]; [exact I|].
    destruct (send w i (Some stream) o) as [[res|e] o']; [|exact I].
    unfold as_received. cbn. destruct (res_Body res); cbn; auto.
  - destruct (send w i None (body_obj rq)) as [[res|e] o']; [|exact I].
    unfold as_received. cbn. destruct (res_Body res); cbn; auto.
Qed.

(** What the loop holds and what it has dropped was never touched by the
    loop itself. *)
Definition untouched (st : LoopState (S := S)) : Prop :=
  Forall (left_by_hook c) (discarded st)
  /\ (forall resp, r st = Some resp -> left_by_hook c resp).

Lemma as_received_left_by_hook (resp : Response (S := S)) :
  as_received resp -> left_by_hook c resp.
Proof. intros H. exists resp. auto. Qed.

Lemma attempt_body_untouched (i : nat) (st : LoopState (S := S)) :
  untouched st ->
  match attempt_body ParseTime w c i st with
  | Continue st' | Break st' => untouched st'
  end.
Proof.
  intros [Hdis Hr]. unfold attempt_body.
  pose proof (doRequest_cases i (req st)) as Hdo.
  destruct (doRequest w i (req st)) as [[[r' e'] rq'] evs].
  assert (HD : Forall (left_by_hook c)
                 (discarded st ++ match r st with Some old => [old] | None => [] end)).
  { apply Forall_app. split; [assumption|].
    destruct (r st) as [old|]; [|constructor].
    constructor; [now apply Hr | constructor]. }
  destruct e' as [err|].
  - destruct r' as [resp|]; [contradiction|].
    destruct (onError c err) as [e|]; [destruct (isTimeout e)|];
      (split; [exact HD | cbn; discriminate]).
  - destruct r' as [resp|]; [|contradiction].
    destruct ((StatusOK <=? StatusCode resp) && (StatusCode resp <=? 299)).
    { split; [exact HD|]. cbn. intros ? [= <-].
      now apply as_received_left_by_hook. }
    assert (Hhook : forall e resp2,
              match onErrorResponse c with
              | Some hook => let '(e, resp2) := hook resp in
                             (e, resp2, [EvOnErrorResponse i])
              | None => (None, resp, [])
              end.1 = (e, resp2) -> left_by_hook c resp2).
    { intros e resp2. destruct (onErrorResponse c) as [hook|] eqn:Eh.
      - destruct (hook resp) as [e0 resp0] eqn:Ehook. cbn. intros [= _ <-].
        exists resp. split; [assumption|]. right. exists hook.
        rewrite Ehook. auto.
      - cbn. intros [= _ <-]. now apply as_received_left_by_hook. }
    destruct (match onErrorResponse c with
              | Some hook => let '(e, resp2) := hook resp in
                             (e, resp2, [EvOnErrorResponse i])
              | None => (None, resp, [])
              end) as [[hookErr resp2] evs2].
    specialize (Hhook hookErr resp2 eq_refl).
    destruct hookErr as [e|].
    { split; [exact HD|]. cbn. now intros ? [= <-]. }
    destruct (retryAfter ParseTime (clock w i) resp2) as [d [e|]].
    { split; [exact HD|]. cbn. now intros ? [= <-]. }
    destruct (minRetryAfter c <? d);
      (split; [exact HD|]; cbn; now intros ? [= <-]).
Qed.

Lemma Do_loop_untouched (fuel : nat) (st st' : LoopState (S := S)) :
  untouched st -> Do_loop ParseTime w c fuel st = Some st' -> untouched st'.
Proof.
  revert st. induction fuel as [|fuel IH]; intros st Hst; cbn [Do_loop];
    [discriminate|].
  destruct (nxretry.Next _ (rty st)) as [[wait rty']|]; [|now intros [= <-]].
  match goal with
  | |- context [attempt_body ParseTime w c ?i ?s] =>
      pose proof (attempt_body_untouched i s) as Hstep;
      destruct (attempt_body ParseTime w c i s) as [st2|st2]
  end.
  - intros Hrec. apply (IH st2); [|assumption]. apply Hstep. exact Hst.
  - intros [= <-]. apply Hstep. exact Hst.
Qed.

(** C2 (amended): [Do] reads from no response body and closes none.
    Every response that a later attempt replaced is, when [Do] returns,
    as [doRequest] wrapped it or as the error-response hook left it:
    without a hook, never read, not drained and not closed. *)
Theorem Do_leaves_discarded_responses_open (fuel : nat) (request : Request)
    (st : LoopState (S := S)) :
  Do ParseTime w c fuel request = Some st ->
  Forall (left_by_hook c) (discarded st)
  /\ (onErrorResponse c = None ->
      Forall (fun resp => as_received resp /\ (Body resp <> None -> body_closed resp = false))
             (discarded st)).
Proof.
  intros HDo.
  assert (Hst : untouched st).
  { unfold Do in HDo. destruct (ctx_Err w 0).
    - injection HDo as <-. split; [constructor | discriminate].
    - refine (Do_loop_untouched _ _ _ _ HDo).
      split; [apply Forall_nil; exact I | discriminate]. }
  destruct Hst as [Hdis _]. split; [exact Hdis|].
  intros Hno. eapply Forall_impl; [exact Hdis|].
  intros resp (resp0 & Hrec & [-> | (hook & Hh & _)]); [|congruence].
  split; [assumption|]. unfold as_received, body_closed in *.
  destruct (Body resp0) as [b|]; [|congruence].
  destruct Hrec as [-> _]. reflexivity.
Qed.

(** Any response outside 200-299 that the hook lets pass sends the loop
    into its next iteration, whatever the status code. *)
Lemma attempt_body_status_continues (i : nat) (st : LoopState (S := S))
    (resp resp2 : Response (S := S)) rq' evs :
  doRequest w i (req st) = ((Some resp, None), rq', evs) ->
  (StatusOK <=? StatusCode resp) && (StatusCode resp <=? 299) = false ->
  run_hook c resp = (None, resp2) ->
  exists st', attempt_body ParseTime w c i st = Continue st'
              /\ r st' = Some resp2 /\ doErr st' = None
              /\ nxretry.override (rty st')
                 = match retryAfter ParseTime (clock w i) resp2 with
                   | (d, None) =>
                       if minRetryAfter c <? d
                       then Some (if (0 <? maxRetryAfter c) && (maxRetryAfter c <? d)
                                  then maxRetryAfter c else d)
                       else nxretry.override (rty st)
                   | (_, Some _) => nxretry.override (rty st)
                   end
              /\ nxretry.attempt (rty st') = nxretry.attempt (rty st)
              /\ nxretry.backoff (rty st') = nxretry.backoff (rty st).
Proof.
  intros Hdo Hstatus Hhook. unfold attempt_body. rewrite Hdo, Hstatus.
  unfold run_hook in Hhook.
  destruct (onErrorResponse c) as [hook|].
  - rewrite Hhook.
    destruct (retryAfter ParseTime (clock w i) resp2) as [d [e|]];
      [eexists; repeat split; reflexivity|].
    destruct (minRetryAfter c <? d); eexists; repeat split; reflexivity.
  - injection Hhook as <-.
    destruct (retryAfter ParseTime (clock w i) resp) as [d [e|]];
      [eexists; repeat split; reflexivity|].
    destruct (minRetryAfter c <? d); eexists; repeat split; reflexivity.
Qed.

(** C3 (amended): when a response outside 200-299 passes the hook, the
    loop goes on, and the wait before the next attempt is: for a
    Retry-After that parses to [d] above the minimum, [d], cut down to
    the maximum when the maximum is positive; for a [d] not above the
    minimum, and for a Retry-After that does not parse, the delay of the
    backoff. *)
Theorem Do_retry_after_delay (i : nat) (st : LoopState (S := S))
    (resp resp2 : Response (S := S)) rq' evs :
  doRequest w i (req st) = ((Some resp, None), rq', evs) ->
  (StatusOK <=? StatusCode resp) && (StatusCode resp <=? 299) = false ->
  run_hook c resp = (None, resp2) ->
  nxretry.attempt (rty st) <> O ->
  nxretry.override (rty st) = None ->
  exists st',
    attempt_body ParseTime w c i st = Continue st'
    /\ next_wait st'
       = Some match retryAfter ParseTime (clock w i) resp2 with
              | (d, None) =>
                  if minRetryAfter c <? d
                  then (if (0 <? maxRetryAfter c) && (maxRetryAfter c <? d)
                        then maxRetryAfter c else d)
                  else nxretry.backoff (rty st) (nxretry.attempt (rty st))
              | (_, Some _) => nxretry.backoff (rty st) (nxretry.attempt (rty st))
              end.
Proof.
  intros Hdo Hstatus Hhook Hatt Hover.
  destruct (attempt_body_status_continues i st resp resp2 rq' evs Hdo Hstatus Hhook)
    as (st' & Hstep & _ & _ & Ho & Ha & Hb).
  exists st'. split; [exact Hstep|].
  unfold next_wait, nxretry.nextDelay. cbn [fst]. rewrite Ha, Hb, Ho.
  destruct (Nat.eqb_spec (nxretry.attempt (rty st)) 0); [contradiction|].
  f_equal.
  destruct (retryAfter ParseTime (clock w i) resp2) as [d [e|]];
    [now rewrite Hover|].
  destruct (minRetryAfter c <? d); [reflexivity | now rewrite Hover].
Qed.

(** C9 (amended): when the body function fails at an attempt, that
    attempt makes no network call; the error, wrapped in [RequestError],
    goes to the error hook like a transport error; the loop stops with
    the hook's result and no response when that result is an error that
    is not a timeout, and goes on to the next attempt otherwise. *)
Theorem Do_body_open_failure (i : nat) (st : LoopState (S := S))
    (fn : BodyFunc) (stream : Stream) (e : error) (o : ReadSeeker) :
  body (req st) = Some fn ->
  fn (body_obj (req st)) = ((stream, Some e), o) ->
  exists st',
    attempt_body ParseTime w c i st
    = (if permanent (onError c (RequestError e)) then Break st' else Continue st')
    /\ trace st' = trace st ++ [EvGetBody i; EvOnError i]
    /\ r st' = None
    /\ doErr st' = onError c (RequestError e)
    /\ body_obj (req st') = o.
Proof.
  intros Hbody Hfn. unfold attempt_body, doRequest. rewrite Hbody, Hfn.
  unfold permanent.
  destruct (onError c (RequestError e)) as [e'|];
    [destruct (isTimeout e')|]; cbn [negb];
    eexists; (split; [reflexivity|]); cbn; rewrite <- app_assoc; auto.
Qed.

(** A [Break] ends the loop with the state of the attempt. *)
Lemma Do_loop_break (fuel : nat) (st st' : LoopState (S := S)) wait rty' :
  nxretry.Next (ctx_Err w (Datatypes.S (nxretry.attempt (rty st)))) (rty st)
  = Some (wait, rty') ->
  attempt_body ParseTime w c (nxretry.attempt (rty st))
    {| r := r st; doErr := doErr st; rty := rty'; req := req st;
       trace := trace st ++ match wait with Some d => [EvSleep d] | None => [] end;
       discarded := discarded st |} = Break st' ->
  Do_loop ParseTime w c (Datatypes.S fuel) st = Some st'.
Proof.
  intros HN HB. cbn [Do_loop]. rewrite HN, HB. reflexivity.
Qed.

(** With a positive maximum of attempts the loop ends within that many
    iterations. *)
Lemma Do_loop_ends (fuel : nat) (st : LoopState (S := S)) :
  nxretry.maxAttempts (rty st) <> O ->
  (nxretry.maxAttempts (rty st) - nxretry.attempt (rty st) < fuel)%nat ->
  is_Some (Do_loop ParseTime w c fuel st).
Proof.
  revert st. induction fuel as [|fuel IH]; intros st Hmax Hfuel; [lia|].
  cbn [Do_loop]. unfold nxretry.Next.
  destruct (ctx_Err w _); [eauto|].
  unfold nxretry.hasAttemptsRemaining.
  destruct (Nat.eqb_spec (nxretry.maxAttempts (rty st)) 0); [contradiction|].
  destruct (Nat.ltb_spec (nxretry.attempt (rty st)) (nxretry.maxAttempts (rty st)));
    cbn [orb]; [|eauto].
  unfold nxretry.nextDelay. cbv iota.
  match goal with
  | |- context [attempt_body ParseTime w c ?i ?s] =>
      assert (Hrty : forall st2,
                 attempt_body ParseTime w c i s = Continue st2 ->
                 nxretry.maxAttempts (rty st2) = nxretry.maxAttempts (rty st)
                 /\ nxretry.attempt (rty st2) = Datatypes.S (nxretry.attempt (rty st)));
      [|destruct (attempt_body ParseTime w c i s) as [st2|st2] eqn:E; [|eauto]]
  end.
  { intros st2. unfold attempt_body.
    destruct (doRequest w _ _) as [[[r' e'] rq'] evs]. cbn.
    repeat match goal with
           | |- context [match ?x with _ => _ end] => destruct x
           | |- context [if ?x then _ else _] => destruct x
           end; intros [= <-]; cbn; auto. }
  destruct (Hrty st2 eq_refl) as [Hm Ha].
  apply IH; rewrite ?Hm, ?Ha; [assumption | lia].
Qed.

(** [Do] returns when the maximum of attempts is positive. *)
Lemma Do_ends (request : Request) :
  maxAttempts c <> O ->
  is_Some (Do ParseTime w c (Datatypes.S (maxAttempts c)) request).
Proof.
  intros Hmax. unfold Do. destruct (ctx_Err w 0); [eauto|].
  apply Do_loop_ends; cbn; [assumption | lia].
Qed.

End ClientProps.

(** ** Runs of the client *)

(** C1 (the code departs from it): a 404 response does not end the loop.
    Against a server that always answers 404, [Do] with the default
    options makes all three attempts, waiting for the backoff in between,
    and only then returns the last 404 response with no error. *)
Theorem Do_retries_not_found :
  option_map (fun st => (option_map StatusCode (r st), doErr st, trace st))
    (Do ParseTime_table (server [] (Ok (plain_response 404 None None)))
        newOptions 4 request_without_body)
  = Some (Some 404, None,
          [EvRoundTrip 0; EvSleep (1 * time.Second);
           EvRoundTrip 1; EvSleep (2 * time.Second);
           EvRoundTrip 2]).
Proof. vm_compute. reflexivity. Qed.

Lemma Do_503_then_200 :
  Do ParseTime_table server_503_then_200 newOptions 3 request_without_body
  = Some state_503_then_200.
Proof. vm_compute. reflexivity. Qed.

(** C2 as stated fails: against a server that answers 503 and then 200,
    the second attempt is made while the body of the 503 response has
    been neither read nor closed, and it is still so when [Do] returns. *)
Lemma Do_discards_unclosed_response :
  option_map (fun st => (trace st, map body_closed (discarded st)))
    (Do ParseTime_table server_503_then_200 newOptions 3 request_without_body)
  = Some ([EvRoundTrip 0; EvSleep (1 * time.Second); EvRoundTrip 1], [false]).
Proof. vm_compute. reflexivity. Qed.

(** C2 (amended) on that run. *)
Lemma Do_leaves_discarded_responses_open_witness :
  Forall (left_by_hook newOptions) (discarded state_503_then_200)
  /\ (onErrorResponse (newOptions (S := unit)) = None ->
      Forall (fun resp => as_received resp
                          /\ (Body resp <> None -> body_closed resp = false))
             (discarded state_503_then_200)).
Proof.
  apply (Do_leaves_discarded_responses_open ParseTime_table server_503_then_200
           newOptions 3 request_without_body state_503_then_200).
  vm_compute. reflexivity.
Defined.

(** C3 as stated fails: with the maximum configured as zero and a 429
    response carrying Retry-After: 5, the next attempt waits five
    seconds, which is not five seconds clamped to the maximum. *)
Lemma Do_retry_after_without_maximum :
  option_map trace
    (Do ParseTime_table (server [] (Ok (plain_response 429 (Some "5") None)))
        options_no_maximum 4 request_without_body)
  = Some [EvRoundTrip 0; EvOverride (5 * time.Second); EvSleep (5 * time.Second);
          EvRoundTrip 1; EvOverride (5 * time.Second); EvSleep (5 * time.Second);
          EvRoundTrip 2; EvOverride (5 * time.Second)]
  /\ Z.min (5 * time.Second) (maxRetryAfter (options_no_maximum)) = 0
  /\ 5 * time.Second <> 0.
Proof. split; [vm_compute; reflexivity|]. split; [reflexivity | discriminate]. Qed.

(** C3 (amended) with the default options: Retry-After: 5 makes the next
    wait five seconds, Retry-After: 1 leaves the backoff's one second, and
    a Retry-After that does not parse leaves the backoff as well. *)
Lemma Do_retry_after_delay_witness :
  (exists st',
      attempt_body ParseTime_table
        (server [] (Ok (plain_response 429 (Some "5") None))) newOptions 0
        (loop_state request_without_body 1 []) = Continue st'
      /\ next_wait st' = Some (5 * time.Second))
  /\ (exists st',
        attempt_body ParseTime_table
          (server [] (Ok (plain_response 429 (Some "1") None))) newOptions 0
          (loop_state request_without_body 1 []) = Continue st'
        /\ next_wait st' = Some (1 * time.Second))
  /\ (exists st',
        attempt_body ParseTime_table
          (server [] (Ok (plain_response 429 (Some "soon") None))) newOptions 0
          (loop_state request_without_body 1 []) = Continue st'
        /\ next_wait st' = Some (1 * time.Second)).
Proof.
  assert (Hone : forall v d,
             (let '(d0, e) :=
                retryAfter ParseTime_table (1761868800 * time.Second)
                  (wrapped 429 (Some v) None) in
              match e with
              | None =>
                  if minRetryAfter (newOptions (S := unit)) <? d0
                  then (if (0 <? maxRetryAfter (newOptions (S := unit)))
                           && (maxRetryAfter (newOptions (S := unit)) <? d0)
                        then maxRetryAfter (newOptions (S := unit)) else d0)
                  else 1 * time.Second
              | Some _ => 1 * time.Second
              end) = d ->
             exists st',
               attempt_body ParseTime_table
                 (server [] (Ok (plain_response 429 (Some v) None))) newOptions 0
                 (loop_state request_without_body 1 []) = Continue st'
               /\ next_wait st' = Some d).
  { intros v d Hd.
    destruct (Do_retry_after_delay ParseTime_table
                (server [] (Ok (plain_response 429 (Some v) None))) newOptions 0
                (loop_state request_without_body 1 [])
                (wrapped 429 (Some v) None) (wrapped 429 (Some v) None)
                request_without_body [EvRoundTrip 0]
                eq_refl eq_refl eq_refl ltac:(discriminate) eq_refl)
      as (st' & Hstep & Hwait).
    exists st'. split; [exact Hstep|]. rewrite Hwait. f_equal. rewrite <- Hd.
    cbn [clock server].
    destruct (retryAfter ParseTime_table (1761868800 * time.Second)
                (wrapped 429 (Some v) None)) as [d0 [e|]]; reflexivity. }
  split; [|split]; apply Hone; vm_compute; reflexivity.
Defined.

(** C9 as stated fails: a body function that fails with a timeout error is
    called again at every attempt; the failure is retried until the
    attempts are used up. *)
Lemma Do_retries_body_open_timeout :
  option_map (fun st => (option_map StatusCode (r st), doErr st, trace st))
    (Do ParseTime_table (server [] (Ok (plain_response 200 None None)))
        newOptions 4 request_unseekable)
  = Some (None, Some (RequestError (netError "seek: i/o timeout" true)),
          [EvGetBody 0; EvOnError 0; EvSleep (1 * time.Second);
           EvGetBody 1; EvOnError 1; EvSleep (2 * time.Second);
           EvGetBody 2; EvOnError 2]).
Proof. vm_compute. reflexivity. Qed.

(** C9 (amended) on a body that fails with a permanent error, where the
    loop stops at once, and on one that fails with a timeout, where it
    goes on; neither attempt reaches the network. *)
Lemma Do_body_open_failure_witness :
  (exists st',
      attempt_body ParseTime_table (server [] (Ok (plain_response 200 None None)))
        newOptions 0 (loop_state request_closed_file 1 []) = Break st'
      /\ trace st' = [EvGetBody 0; EvOnError 0]
      /\ r st' = None
      /\ doErr st' = Some (RequestError (errorString "seek: file already closed")))
  /\ (exists st',
        attempt_body ParseTime_table (server [] (Ok (plain_response 200 None None)))
          newOptions 0 (loop_state request_unseekable 1 []) = Continue st'
        /\ trace st' = [EvGetBody 0; EvOnError 0]
        /\ r st' = None
        /\ doErr st' = Some (RequestError (netError "seek: i/o timeout" true))).
Proof.
  split.
  - destruct (Do_body_open_failure ParseTime_table
                (server [] (Ok (plain_response 200 None None))) newOptions 0
                (loop_state request_closed_file 1 []) bodyFuncFromReadSeeker
                NopCloser_Reader (errorString "seek: file already closed")
                (body_obj request_closed_file) eq_refl eq_refl)
      as (st' & Hstep & Htr & Hr & He & _).
    exists st'. repeat split; assumption.
  - destruct (Do_body_open_failure ParseTime_table
                (server [] (Ok (plain_response 200 None None))) newOptions 0
                (loop_state request_unseekable 1 []) bodyFuncFromReadSeeker
                NopCloser_Reader (netError "seek: i/o timeout" true)
                (body_obj request_unseekable) eq_refl eq_refl)
      as (st' & Hstep & Htr & Hr & He & _).
    exists st'. repeat split; assumption.
Defined.

(* ===================================================================== *)
(** * Further properties of the code                                      *)
(* ===================================================================== *)

(** ** The retry loop: attempts *)

Lemma count_events_app (p : Event -> bool) (l1 l2 : list Event) :
  count_events p (l1 ++ l2) = (count_events p l1 + count_events p l2)%nat.
Proof. unfold count_events. now rewrite List.filter_app, length_app. Qed.

Section LoopProps.

Context {S : Type}.
Variable ParseTime : string -> result time.Time.
Variable w : World (S := S).
Variable c : options (S := S).

(** What one attempt does to the state, whichever way it ends: it adds
    events, among them at most one network call and at most one opening
    of the body, and leaves the counters of the retrier and the request's
    headers and body function alone. *)
Lemma attempt_body_frame (i : nat) (st st' : LoopState (S := S)) :
  attempt_body ParseTime w c i st = Continue st'
  \/ attempt_body ParseTime w c i st = Break st' ->
  exists evs,
    trace st' = trace st ++ evs
    /\ (count_events is_round_trip evs <= 1)%nat
    /\ (count_events is_get_body evs <= 1)%nat
    /\ (body (req st) = None -> count_events is_get_body evs = O)
    /\ nxretry.attempt (rty st') = nxretry.attempt (rty st)
    /\ nxretry.maxAttempts (rty st') = nxretry.maxAttempts (rty st)
    /\ req_Header (req st') = req_Header (req st)
    /\ body (req st') = body (req st).
Proof.
  unfold attempt_body, doRequest.
  destruct (body (req st)) as [fn|];
    [destruct (fn (body_obj (req st))) as [[stream [e|]] o];
     [|destruct (send w i (Some stream) o) as [[res|e] o']]
    |destruct (send w i None (body_obj (req st))) as [[res|e] o']];
    cbn [fst snd];
    (destruct (onErrorResponse c) as [hook|];
     [try match goal with |- context [hook ?x] => destruct (hook x) end|]);
    repeat match goal with
           | |- context [match ?x with _ => _ end] => destruct x
           | |- context [if ?x then _ else _] => destruct x
           end;
    intros [[= <-]|[= <-]]; cbn [trace rty req nxretry.Override nxretry.attempt
                                 nxretry.maxAttempts req_Header body];
    rewrite <- ?app_assoc; eexists; (split; [reflexivity|]);
    cbn; repeat split; try lia; try discriminate.
Qed.

(** The loop never makes more network calls, and never opens the body
    more often, than attempts were handed out. *)
Definition within_attempts (st : LoopState (S := S)) : Prop :=
  (count_events is_round_trip (trace st) <= nxretry.attempt (rty st))%nat
  /\ (count_events is_get_body (trace st) <= nxretry.attempt (rty st))%nat
  /\ (nxretry.maxAttempts (rty st) <> O ->
      nxretry.attempt (rty st) <= nxretry.maxAttempts (rty st))%nat.

Lemma Do_loop_within_attempts (fuel : nat) (st st' : LoopState (S := S)) :
  within_attempts st ->
  Do_loop ParseTime w c fuel st = Some st' ->
  within_attempts st'
  /\ nxretry.maxAttempts (rty st') = nxretry.maxAttempts (rty st).
Proof.
  revert st. induction fuel as [|fuel IH]; intros st Hst; cbn [Do_loop];
    [discriminate|].
  unfold nxretry.Next.
  destruct (ctx_Err w _); [intros [= <-]; split; [assumption | reflexivity]|].
  destruct (nxretry.hasAttemptsRemaining (rty st)) eqn:Hrem;
    [|intros [= <-]; split; [assumption | reflexivity]].
  unfold nxretry.nextDelay. cbv iota.
  destruct Hst as (Hrt & Hgb & Hmax).
  assert (Hle : nxretry.maxAttempts (rty st) <> O ->
                (nxretry.attempt (rty st) < nxretry.maxAttempts (rty st))%nat).
  { intros Hne. unfold nxretry.hasAttemptsRemaining in Hrem.
    destruct (Nat.eqb_spec (nxretry.maxAttempts (rty st)) 0); [contradiction|].
    cbn [orb] in Hrem. now apply Nat.ltb_lt in Hrem. }
  match goal with
  | |- context [attempt_body ParseTime w c ?i ?s0] =>
      assert (Hs0 : trace s0 = trace st
                    ++ match nxretry.attempt (rty st) with
                       | O => []
                       | Datatypes.S _ =>
                           [EvSleep (default (nxretry.backoff (rty st)
                                                (nxretry.attempt (rty st)))
                                             (nxretry.override (rty st)))]
                       end
                    /\ nxretry.attempt (rty s0) = Datatypes.S (nxretry.attempt (rty st))
                    /\ nxretry.maxAttempts (rty s0) = nxretry.maxAttempts (rty st))
        by (cbn; destruct (nxretry.attempt (rty st)); auto);
      pose proof (attempt_body_frame i s0) as Hframe;
      destruct (attempt_body ParseTime w c i s0) as [st2|st2];
      [destruct (Hframe st2 (or_introl eq_refl))
         as (evs & Htr & Hrt2 & Hgb2 & _ & Ha & Hm & _)
      |destruct (Hframe st2 (or_intror eq_refl))
         as (evs & Htr & Hrt2 & Hgb2 & _ & Ha & Hm & _)];
      clear Hframe; destruct Hs0 as (Htr0 & Ha0 & Hm0);
      rewrite Htr0 in Htr; rewrite Ha0 in Ha; rewrite Hm0 in Hm
  end.
  - assert (Hin2 : within_attempts st2).
    { unfold within_attempts. rewrite Htr, !count_events_app, Ha, Hm.
      destruct (nxretry.attempt (rty st)); cbn;
        (repeat split; [lia | lia |]); intros Hne; specialize (Hle Hne); lia. }
    intros Hrec. destruct (IH st2 Hin2 Hrec) as [Hin Hmx].
    split; [exact Hin | congruence].
  - intros [= <-]. split; [|congruence].
    unfold within_attempts. rewrite Htr, !count_events_app, Ha, Hm.
    destruct (nxretry.attempt (rty st)); cbn;
      (repeat split; [lia | lia |]); intros Hne; specialize (Hle Hne); lia.
Qed.


(** One attempt without a request body against a server that answers
    outside 200-299, with no error-response hook: the loop goes on. *)
Lemma attempt_body_retryable (i : nat) (st : LoopState (S := S))
    (res : http_Response (S := S)) (o' : ReadSeeker) :
  body (req st) = None ->
  send w i None (body_obj (req st)) = (Ok res, o') ->
  not_success (res_StatusCode res) ->
  onErrorResponse c = None ->
  exists st2 evs,
    attempt_body ParseTime w c i st = Continue st2
    /\ trace st2 = trace st ++ EvRoundTrip i :: evs
    /\ count_events is_round_trip evs = O
    /\ r st2 = Some (wrap_response res)
    /\ doErr st2 = None
    /\ discarded st2 = discarded st ++ option_list (r st)
    /\ body (req st2) = None
    /\ nxretry.attempt (rty st2) = nxretry.attempt (rty st)
    /\ nxretry.maxAttempts (rty st2) = nxretry.maxAttempts (rty st).
Proof.
  intros Hbody Hsend Hstatus Hhook. unfold attempt_body, doRequest.
  rewrite Hbody, Hsend. cbn [fst snd StatusCode]. unfold not_success in Hstatus.
  rewrite Hstatus, Hhook.
  match goal with
  | |- context [retryAfter ParseTime ?t ?x] =>
      destruct (retryAfter ParseTime t x) as [d [e|]]
  end; [|destruct (minRetryAfter c <? d)];
    eexists; eexists; (split; [reflexivity|]);
    cbn [trace r doErr discarded req rty body nxretry.Override
         nxretry.attempt nxretry.maxAttempts];
    rewrite <- ?app_assoc; cbn [app]; rewrite ?app_nil_r;
    repeat split; try reflexivity; try assumption.
Qed.

(** The states the loop passes through against such a server. *)
Definition retrying (K : nat) (st : LoopState (S := S)) : Prop :=
  nxretry.maxAttempts (rty st) = K
  /\ (nxretry.attempt (rty st) <= K)%nat
  /\ body (req st) = None
  /\ count_events is_round_trip (trace st) = nxretry.attempt (rty st)
  /\ doErr st = None
  /\ length (discarded st) = Nat.pred (nxretry.attempt (rty st))
  /\ (nxretry.attempt (rty st) <> O ->
      exists resp, r st = Some resp /\ not_success (StatusCode resp))
  /\ (nxretry.attempt (rty st) = O -> r st = None).

Lemma Do_loop_exhausts (K fuel : nat) (st : LoopState (S := S)) :
  K <> O ->
  (forall i, ctx_Err w i = None) ->
  onErrorResponse c = None ->
  (forall i o, exists res o',
      send w i None o = (Ok res, o') /\ not_success (res_StatusCode res)) ->
  retrying K st ->
  (K - nxretry.attempt (rty st) < fuel)%nat ->
  exists st',
    Do_loop ParseTime w c fuel st = Some st'
    /\ retrying K st' /\ nxretry.attempt (rty st') = K.
Proof.
  intros HK Hctx Hhook Hsrv. revert st.
  induction fuel as [|fuel IH]; intros st Hst Hfuel; [lia|].
  destruct Hst as (Hmax & Hle & Hbody & Hcount & Herr & Hdis & Hheld & Hnone).
  cbn [Do_loop]. unfold nxretry.Next. rewrite Hctx.
  unfold nxretry.hasAttemptsRemaining. rewrite Hmax.
  destruct (Nat.eqb_spec K 0); [contradiction|]. cbn [orb].
  destruct (Nat.ltb_spec (nxretry.attempt (rty st)) K) as [Hlt|Hge].
  - unfold nxretry.nextDelay. cbv iota.
    match goal with
    | |- context [attempt_body ParseTime w c ?i ?s0] =>
        destruct (Hsrv i (body_obj (req s0))) as (res & o' & Hsend & Hns);
        destruct (attempt_body_retryable i s0 res o' Hbody Hsend Hns Hhook)
          as (st2 & evs & -> & Htr & Hev & Hr & He & Hd & Hb & Ha & Hm)
    end.
    cbn [trace r discarded rty nxretry.attempt nxretry.maxAttempts] in Htr, Hd, Ha, Hm.
    apply IH; [|lia].
    unfold retrying. rewrite Ha, Hm, Htr, Hd, Hr, He, Hb.
    rewrite !count_events_app, length_app, Hcount, Hdis.
    change (count_events is_round_trip (EvRoundTrip (nxretry.attempt (rty st)) :: evs))
      with (Datatypes.S (count_events is_round_trip evs)).
    rewrite Hev.
    repeat split; try lia; try assumption.
    + destruct (nxretry.attempt (rty st) =? 0)%nat; cbn; lia.
    + destruct (nxretry.attempt (rty st)) as [|a] eqn:Ea.
      * rewrite Hnone by reflexivity. reflexivity.
      * destruct (Hheld ltac:(discriminate)) as (resp & -> & _). cbn. lia.
    + intros _. exists (wrap_response res). auto.
  - exists st. split; [reflexivity|]. split; [|lia].
    repeat split; assumption.
Qed.




(** X5: when the error-response hook returns an error for a response
    outside 200-299, the loop stops at that attempt holding both the
    response, as the hook left it, and the hook's error; the Retry-After
    header is not looked at and the retrier is not overridden. *)
Theorem attempt_body_hook_error (i : nat) (st : LoopState (S := S))
    (resp resp2 : Response (S := S)) (e : error) rq' evs hook :
  doRequest w i (req st) = ((Some resp, None), rq', evs) ->
  not_success (StatusCode resp) ->
  onErrorResponse c = Some hook ->
  hook resp = (Some e, resp2) ->
  exists st',
    attempt_body ParseTime w c i st = Break st'
    /\ r st' = Some resp2
    /\ doErr st' = Some e
    /\ rty st' = rty st
    /\ trace st' = trace st ++ evs ++ [EvOnErrorResponse i].
Proof.
  intros Hdo Hstatus Hc Hhook. unfold attempt_body. rewrite Hdo.
  unfold not_success in Hstatus. rewrite Hstatus, Hc, Hhook.
  eexists. split; [reflexivity|]. cbn. rewrite <- app_assoc. auto.
Qed.

(** The loop leaves the headers and the body function of the request
    alone. *)
Lemma Do_loop_request (fuel : nat) (st st' : LoopState (S := S)) :
  Do_loop ParseTime w c fuel st = Some st' ->
  req_Header (req st') = req_Header (req st) /\ body (req st') = body (req st).
Proof.
  revert st. induction fuel as [|fuel IH]; intros st; cbn [Do_loop]; [discriminate|].
  destruct (nxretry.Next _ (rty st)) as [[wait rty']|]; [|now intros [= <-]].
  match goal with
  | |- context [attempt_body ParseTime w c ?i ?s0] =>
      pose proof (attempt_body_frame i s0) as Hframe;
      destruct (attempt_body ParseTime w c i s0) as [st2|st2]
  end.
  - destruct (Hframe st2 (or_introl eq_refl)) as (evs & _ & _ & _ & _ & _ & _ & Hh & Hb).
    intros Hrec. destruct (IH st2 Hrec) as [Hh' Hb']. cbn in Hh, Hb.
    split; congruence.
  - destruct (Hframe st2 (or_intror eq_refl)) as (evs & _ & _ & _ & _ & _ & _ & Hh & Hb).
    intros [= <-]. cbn in Hh, Hb. split; congruence.
Qed.

(** X6: the default headers never replace a header the request sets.
    After [Do], a header name the request had keeps its values, even an
    empty list of them; a name the request lacked carries the single
    default value when there is one, and is absent otherwise. *)
Theorem Do_default_headers (fuel : nat) (request : Request)
    (st : LoopState (S := S)) (key : string) :
  ctx_Err w 0 = None ->
  Do ParseTime w c fuel request = Some st ->
  req_Header (req st) !! key
  = match req_Header request !! key with
    | Some values => Some values
    | None => match defaultHeaders c with
              | Some dh => (fun v => [v]) <$> (dh !! key)
              | None => None
              end
    end.
Proof.
  intros Hctx. unfold Do. rewrite Hctx. intros HDo.
  destruct (Do_loop_request _ _ _ HDo) as [-> _]. cbn [req req_Header].
  destruct (defaultHeaders c) as [dh|].
  - rewrite lookup_union, lookup_fmap. unfold httpheader.Key in *.
    destruct (req_Header request !! key), (dh !! key); reflexivity.
  - destruct (req_Header request !! key); reflexivity.
Qed.

End LoopProps.

(** ** Body sources: sizes *)

Section BodySizes.

Variable Encode : gmap string (list string) -> string.
Variable room : nat -> nat.
Hypothesis room_positive : forall k, (0 < room k)%nat.

(** X7: for bytes, text, form values and a reader that reports its total
    size, the size [GetBody] declares is the number of bytes an open
    yields, also when the reader handed in had already been read in
    part. *)
Theorem GetBody_size_is_content_length
    (v : any) (fn : BodyFunc) (size : Z) (obj : ReadSeeker) :
  sized_by_reader v = true ->
  GetBody Encode v = ((Some fn, size, None), Some obj) ->
  rs_seek_err obj = None ->
  exists content obj',
    open_and_read room (Datatypes.S (length (rs_data obj))) fn obj
    = Some ((content, None), obj')
    /\ size = Z.of_nat (length content).
Proof.
  intros Hv Hget Hseek.
  assert (Hplain : fn = bodyFuncFromReadSeeker ->
                   size = Z.of_nat (length (rs_data obj)) ->
                   exists content obj',
                     open_and_read room (Datatypes.S (length (rs_data obj))) fn obj
                     = Some ((content, None), obj')
                     /\ size = Z.of_nat (length content)).
  { intros -> ->. eexists. eexists.
    rewrite (open_and_read_ReadSeeker room room_positive) by (auto; lia).
    split; reflexivity. }
  destruct v as [|open m o|f st|r m|b|s|vals|t]; try discriminate Hv;
    cbn [GetBody bodyFuncFromReadSeekerSize] in Hget.
  - cbn [sized_by_reader] in Hv. unfold getLen in Hget.
    destruct (method_Size m) as [n|]; [|discriminate].
    apply Z.eqb_eq in Hv. injection Hget as <- <- <-. now apply Hplain.
  - injection Hget as <- <- <-. now apply Hplain.
  - injection Hget as <- <- <-. now apply Hplain.
  - injection Hget as <- <- <-. now apply Hplain.
Qed.

(** X8: a body built from a file never yields more than the size found
    by Stat, whatever the file holds when it is opened: an open yields the
    first [size] bytes of the file, all of it when it is shorter. *)
Theorem GetBody_file_capped
    (f : ReadSeeker) (size : Z) (fn : BodyFunc) (obj now_ : ReadSeeker) :
  GetBody Encode (any_SeekableFile f (Ok size)) = ((Some fn, size, None), Some obj) ->
  rs_seek_err now_ = None ->
  exists content obj',
    open_and_read room (Datatypes.S (length (rs_data now_))) fn now_
    = Some ((content, None), obj')
    /\ content = take (Z.to_nat size) (rs_data now_)
    /\ (0 <= size -> Z.of_nat (length content) <= size).
Proof.
  intros Hget Hseek. cbn [GetBody] in Hget. injection Hget as <- _.
  destruct (open_and_read_File room room_positive
              (Datatypes.S (length (rs_data now_))) size now_ Hseek)
    as (r' & Heq & _); [lia|].
  eexists. exists r'. split; [exact Heq|]. split; [reflexivity|].
  intros Hsize. rewrite length_take. lia.
Qed.

End BodySizes.

(** X9: [GetBody] returns no body function exactly for the nil value and
    when it returns an error; with an error the size is zero, and the
    error arises exactly for an unsupported type and for a file whose
    Stat fails. *)
Theorem GetBody_failures (Encode : gmap string (list string) -> string) (v : any) :
  let '((fn, size, err), obj) := GetBody Encode v in
  (fn = None <-> v = any_nil \/ err <> None)
  /\ (err <> None -> size = 0 /\ obj = None)
  /\ (err <> None <->
      (exists t, v = any_other t) \/ (exists f e, v = any_SeekableFile f (Err e))).
Proof.
  destruct v as [|open m o|f [sz|e]|r m|b|s|vals|t]; cbn;
    (split; [split; [intros H; try discriminate H; auto
                    |intros [H|H]; try discriminate H; try congruence; auto]
            |split; [intros H; try congruence; auto
                    |split; [intros H; try congruence; eauto
                            |intros [[t' H]|(f' & e' & H)];
                             try discriminate H; try congruence]]]).
Qed.

(** ** Header maps *)

Section HeaderMaps.

Import httpheader_map.

(** X10: after [Set], [Get] of that key returns the first of the values
    set, or the empty string when none were given, and [Values] returns
    them all; every other key reads as before.  On the nil header [Set]
    does nothing. *)
Theorem Set_Get (h : Header) (key key' : string) (value : list string) :
  Set_ None key value = None
  /\ (h <> None ->
      Values (Set_ h key value) key' = (if decide (key = key') then value
                                        else Values h key')
      /\ Get (Set_ h key value) key' = (if decide (key = key') then hd "" value
                                        else Get h key')).
Proof.
  split; [reflexivity|]. intros Hh. destruct h as [m|]; [|congruence].
  unfold Set_, Values, Get, index.
  destruct (decide (key = key')) as [<-|Hne].
  - rewrite lookup_insert_eq. cbn. split; [reflexivity|]. destruct value; reflexivity.
  - rewrite lookup_insert_ne by assumption. auto.
Qed.

(** X11: [Add] appends: the values under the key are the old ones
    followed by the new one, so [Get] keeps returning the first value the
    key had, and returns the new value only when the key had none; other
    keys read as before.  On the nil header [Add] does nothing. *)
Theorem Add_Values (h : Header) (key key' : string) (value : string) :
  Add None key value = None
  /\ (h <> None ->
      Values (Add h key value) key'
      = (if decide (key = key') then Values h key ++ [value] else Values h key')
      /\ Get (Add h key value) key'
         = (if decide (key = key')
            then match Values h key with [] => value | v :: _ => v end
            else Get h key')).
Proof.
  split; [reflexivity|]. intros Hh. destruct h as [m|]; [|congruence].
  unfold Add, Values, Get, index.
  destruct (decide (key = key')) as [<-|Hne].
  - rewrite lookup_insert_eq. cbn. split; [reflexivity|].
    match goal with |- context [app ?l [value]] => destruct l end; reflexivity.
  - rewrite lookup_insert_ne by assumption. auto.
Qed.

(** X12: after [Del] the key has no values and [Get] returns the empty
    string; every other key reads as before.  On the nil header [Del]
    does nothing, and [Get] and [Values] of a nil header are empty. *)
Theorem Del_Get (h : Header) (key key' : string) :
  Del None key = None /\ Get None key = "" /\ Values None key = []
  /\ Values (Del h key) key' = (if decide (key = key') then [] else Values h key')
  /\ Get (Del h key) key' = (if decide (key = key') then "" else Get h key').
Proof.
  split; [reflexivity|]. split; [reflexivity|]. split; [reflexivity|].
  destruct h as [m|]; unfold Del, Values, Get, index.
  - destruct (decide (key = key')) as [<-|Hne].
    + rewrite lookup_delete_eq. auto.
    + rewrite lookup_delete_ne by assumption. auto.
  - destruct (decide (key = key')); auto.
Qed.

End HeaderMaps.

(** ** The dialer *)

(** X13: [DialContext] dials exactly once and closes nothing.  It returns
    no error exactly when the dial succeeded, the remote address of the
    connection parsed, and that address is allowed; it returns no
    connection exactly when the dial failed, and then the dialer's error
    as it is. *)
Theorem DialContext_no_error_iff_allowed
    (dial : string -> string -> result nxdial.Conn)
    (ParseAddrPort : string -> result netip.AddrPort)
    (r : nxdial.RestrictedDialer) (network addr : string) :
  let '((conn, err), ops) := nxdial.DialContext dial ParseAddrPort r network addr in
  ops = [nxdial.OpDial network addr]
  /\ (err = None <->
      exists c ap, dial network addr = Ok c
                   /\ ParseAddrPort (nxdial.RemoteAddr c) = Ok ap
                   /\ nxdial.IsAllowed r (netip.ap_Addr ap) = true)
  /\ (conn = None <-> exists e, dial network addr = Err e)
  /\ (forall e, dial network addr = Err e -> err = Some e)
  /\ (forall c, dial network addr = Ok c -> conn = Some c).
Proof.
  unfold nxdial.DialContext.
  destruct (dial network addr) as [c|e] eqn:Ed.
  - destruct (ParseAddrPort (nxdial.RemoteAddr c)) as [ap|e] eqn:Ep.
    + destruct (nxdial.IsAllowed r (netip.ap_Addr ap)) eqn:Ea; cbn [negb].
      * repeat split; try discriminate; try congruence.
        -- intros _. exists c, ap. auto.
        -- intros [e He]. discriminate.
      * repeat split; try discriminate; try congruence.
        -- intros (c' & ap' & [= <-] & Hp & Ha). congruence.
        -- intros [e He]. discriminate.
    + repeat split; try discriminate; try congruence.
      * intros (c' & ap' & [= <-] & Hp & Ha). congruence.
      * intros [e' He]. discriminate.
  - repeat split; try discriminate; try congruence.
    + intros (c' & ap' & H & _). discriminate.
    + intros _. eauto.
Qed.

(** A property of all numbers of a short range, checked one by one. *)
Lemma range_check (f : Z -> bool) (base : Z) (n : nat) :
  forallb (fun k => f (base + Z.of_nat k)) (seq 0 n) = true ->
  forall x, base <= x < base + Z.of_nat n -> f x = true.
Proof.
  intros Hall x Hx. rewrite forallb_forall in Hall.
  replace x with (base + Z.of_nat (Z.to_nat (x - base))) by lia.
  apply Hall. apply in_seq. lia.
Qed.

Lemma v4_byte (a i : Z) :
  0 <= a -> 0 <= i <= 3 -> netip.v4 a i = (a / 2 ^ ((3 - i) * 8)) mod 256.
Proof.
  intros Ha Hi. unfold netip.v4.
  rewrite Z.shiftr_div_pow2 by lia.
  change 255 with (Z.ones 8). rewrite Z.land_ones by lia. reflexivity.
Qed.

Lemma v6_group0 (a : Z) :
  0 <= a < 2 ^ 128 -> netip.v6u16 a 0 = a / 2 ^ 112.
Proof.
  intros Ha. unfold netip.v6u16. change ((7 - 0) * 16) with 112.
  rewrite Z.shiftr_div_pow2 by lia.
  change 65535 with (Z.ones 16). rewrite Z.land_ones by lia.
  apply Z.mod_small. split; [apply Z.div_pos; lia|].
  apply Z.div_lt_upper_bound; [lia|].
  change (2 ^ 112 * 2 ^ 16) with (2 ^ 128). lia.
Qed.

Lemma v6_byte0 (a : Z) :
  0 <= a < 2 ^ 128 -> netip.v6 a 0 = a / 2 ^ 120.
Proof.
  intros Ha. unfold netip.v6. change ((15 - 0) * 8) with 120.
  rewrite Z.shiftr_div_pow2 by lia.
  change 255 with (Z.ones 8). rewrite Z.land_ones by lia.
  apply Z.mod_small. split; [apply Z.div_pos; lia|].
  apply Z.div_lt_upper_bound; [lia|].
  change (2 ^ 120 * 2 ^ 8) with (2 ^ 128). lia.
Qed.

Lemma default_dialer_toggles (addr : netip.Addr) :
  nxdial.IsAllowed nxdial.NewRestrictedDialer addr
  = negb (netip.IsPrivate addr || netip.IsLoopback addr
          || netip.IsLinkLocalUnicast addr || netip.IsLinkLocalMulticast addr
          || netip.IsInterfaceLocalMulticast addr).
Proof.
  rewrite IsAllowed_order. unfold class_blocked. cbn.
  reflexivity.
Qed.

(** X14: the dialer of [NewRestrictedDialer] denies every address of the
    prefixes its documentation lists: 10.0.0.0/8, 172.16.0.0/12,
    192.168.0.0/16, 127.0.0.0/8 and 169.254.0.0/16 for IPv4; fc00::/7,
    ::1 and fe80::/10 for IPv6, with or without a zone. *)
Theorem NewRestrictedDialer_denies_internal :
  (forall a,
      in_block (10 * 2 ^ 24) 24 a
      \/ in_block (172 * 2 ^ 24 + 16 * 2 ^ 16) 20 a
      \/ in_block (192 * 2 ^ 24 + 168 * 2 ^ 16) 16 a
      \/ in_block (127 * 2 ^ 24) 24 a
      \/ in_block (169 * 2 ^ 24 + 254 * 2 ^ 16) 16 a ->
      nxdial.IsAllowed nxdial.NewRestrictedDialer (netip.Addr4 a) = false)
  /\ (forall a zone,
        in_block (64512 * 2 ^ 112) 121 a
        \/ a = 1
        \/ in_block (65152 * 2 ^ 112) 118 a ->
        nxdial.IsAllowed nxdial.NewRestrictedDialer (netip.Addr6 a zone) = false).
Proof.
  assert (H172 : forall x, 16 <= x < 16 + Z.of_nat 16 -> (Z.land x 240 =? 16) = true).
  { apply range_check. vm_compute. reflexivity. }
  assert (Hfc : forall x, 252 <= x < 252 + Z.of_nat 2 -> (Z.land x 254 =? 252) = true).
  { apply range_check. vm_compute. reflexivity. }
  assert (Hfe : forall x, 65152 <= x < 65152 + Z.of_nat 64 ->
                          (Z.land x 65472 =? 65152) = true).
  { apply range_check. vm_compute. reflexivity. }
  assert (Hp24 : 2 ^ 24 = 16777216) by reflexivity.
  assert (Hp16 : 2 ^ 16 = 65536) by reflexivity.
  assert (Hp20 : 2 ^ 20 = 1048576) by reflexivity.
  split.
  - intros a Ha. rewrite default_dialer_toggles. apply negb_false_iff.
    unfold in_block in Ha. rewrite Hp24, Hp16, ?Hp20 in Ha.
    assert (Hnn : 0 <= a) by lia.
    assert (Hb0 : netip.v4 a 0 = a / 16777216 mod 256) by (now rewrite v4_byte by lia).
    assert (Hb1 : netip.v4 a 1 = a / 65536 mod 256) by (now rewrite v4_byte by lia).
    pose proof (Z.div_mod a 16777216 ltac:(lia)) as Hd0.
    pose proof (Z.mod_pos_bound a 16777216 ltac:(lia)) as Hm0.
    pose proof (Z.div_mod a 65536 ltac:(lia)) as Hd1.
    pose proof (Z.mod_pos_bound a 65536 ltac:(lia)) as Hm1.
    pose proof (Z.div_mod (a / 65536) 256 ltac:(lia)) as Hd2.
    pose proof (Z.mod_pos_bound (a / 65536) 256 ltac:(lia)) as Hm2.
    pose proof (Z.div_mod (a / 16777216) 256 ltac:(lia)) as Hd3.
    pose proof (Z.mod_pos_bound (a / 16777216) 256 ltac:(lia)) as Hm3.
    unfold netip.IsPrivate, netip.IsLoopback, netip.IsLinkLocalUnicast.
    cbn [netip.Unmap]. rewrite Hb0, Hb1.
    destruct Ha as [Ha|[Ha|[Ha|[Ha|Ha]]]].
    + replace (a / 16777216 mod 256) with 10 by lia. reflexivity.
    + replace (a / 16777216 mod 256) with 172 by lia.
      rewrite (H172 (a / 65536 mod 256)) by lia. reflexivity.
    + replace (a / 16777216 mod 256) with 192 by lia.
      replace (a / 65536 mod 256) with 168 by lia. reflexivity.
    + replace (a / 16777216 mod 256) with 127 by lia.
      cbn. rewrite ?orb_true_r. reflexivity.
    + replace (a / 16777216 mod 256) with 169 by lia.
      replace (a / 65536 mod 256) with 254 by lia.
      cbn. rewrite ?orb_true_r. reflexivity.
  - intros a zone Ha. rewrite default_dialer_toggles. apply negb_false_iff.
    assert (Hp112 : 2 ^ 112 = 5192296858534827628530496329220096) by reflexivity.
    assert (Hp118 : 2 ^ 118 = 64 * 2 ^ 112) by reflexivity.
    assert (Hp120 : 2 ^ 120 = 256 * 2 ^ 112) by reflexivity.
    assert (Hp121 : 2 ^ 121 = 512 * 2 ^ 112) by reflexivity.
    assert (Hp128 : 2 ^ 128 = 65536 * 2 ^ 112) by reflexivity.
    assert (Hrange : 0 <= a < 2 ^ 128 /\ 65535 * 2 ^ 32 + 2 ^ 32 <= a
                     \/ a = 1).
    { unfold in_block in Ha. rewrite Hp118, Hp121, Hp128 in *.
      assert (2 ^ 32 = 4294967296) by reflexivity. lia. }
    assert (Hnot4in6 : netip.Is4In6 (netip.Addr6 a zone) = false).
    { unfold netip.Is4In6. apply Z.eqb_neq.
      destruct Hrange as [[Ha1 Ha2]| ->]; [|discriminate].
      rewrite Z.shiftr_div_pow2 by lia. intros Hq.
      pose proof (Z.div_mod a (2 ^ 32) ltac:(lia)) as Hd.
      pose proof (Z.mod_pos_bound a (2 ^ 32) ltac:(lia)) as Hm.
      rewrite Hq in Hd. lia. }
    unfold netip.IsPrivate, netip.IsLoopback, netip.IsLinkLocalUnicast, netip.Unmap.
    rewrite Hnot4in6.
    destruct Ha as [Ha|[->|Ha]].
    + unfold in_block in Ha. rewrite Hp121 in Ha.
      rewrite v6_byte0 by (rewrite Hp128; lia).
      rewrite Hfc; [reflexivity|].
      pose proof (Z.div_mod a (2 ^ 120) ltac:(lia)) as Hd.
      pose proof (Z.mod_pos_bound a (2 ^ 120) ltac:(lia)) as Hm.
      rewrite Hp120 in *. lia.
    + cbn. rewrite ?orb_true_r. reflexivity.
    + unfold in_block in Ha. rewrite Hp118 in Ha.
      rewrite (v6_group0 a) by (rewrite Hp128; lia).
      rewrite Hfe; [rewrite ?orb_true_r; reflexivity|].
      pose proof (Z.div_mod a (2 ^ 112) ltac:(lia)) as Hd.
      pose proof (Z.mod_pos_bound a (2 ^ 112) ltac:(lia)) as Hm.
      lia.
Qed.

(** ** Draining a body held in memory *)

(** The drain of a body in memory consumes what is left of it, up to the
    allowance. *)
Lemma Copy_Discard_memory (fuel : nat) (N : Z) (st : io.Logged (S := ReadSeeker))
    (total : Z) :
  0 <= N ->
  (rs_off st.1 <= length (rs_data st.1))%nat ->
  (Z.to_nat N < fuel)%nat ->
  exists log',
    io.Copy_Discard memory_body fuel N st total
    = Some ((total + Z.of_nat (Nat.min (Z.to_nat N)
                                       (length (rs_data st.1) - rs_off st.1)),
             None),
            (N - Z.of_nat (Nat.min (Z.to_nat N)
                                   (length (rs_data st.1) - rs_off st.1)),
             (rewound st.1 (rs_off st.1
                            + Nat.min (Z.to_nat N)
                                      (length (rs_data st.1) - rs_off st.1)),
              log'))).
Proof.
  revert N st total. induction fuel as [|fuel IH]; intros N [s log] total HN Hoff Hfuel;
    [lia|].
  cbn [fst snd] in *. cbn [io.Copy_Discard]. unfold io.LimitedReader_Read.
  destruct (Z.leb_spec N 0) as [Hle|Hgt].
  - replace (Z.to_nat N) with O by lia. cbn. rewrite Nat.add_0_r, Z.add_0_r, Z.sub_0_r.
    exists log. destruct s; reflexivity.
  - set (n' := if N <? Z.of_nat io.blackHole_len then Z.to_nat N else io.blackHole_len).
    assert (Hn' : (0 < n' <= Z.to_nat N)%nat).
    { subst n'. destruct (Z.ltb_spec N (Z.of_nat io.blackHole_len)); [lia|].
      split; [vm_compute; lia | lia]. }
    unfold io.call_Read. cbn [fst snd io.Read memory_body]. unfold ReadSeeker_Read.
    destruct (Nat.leb_spec (length (rs_data s)) (rs_off s)) as [Hend|Hmore].
    + cbn. replace (length (rs_data s) - rs_off s)%nat with O by lia.
      rewrite Nat.min_0_r, Nat.add_0_r, Z.add_0_r, Z.sub_0_r.
      eexists. destruct s; reflexivity.
    + set (bs := take n' (drop (rs_off s) (rs_data s))).
      assert (Hbs : length bs = Nat.min n' (length (rs_data s) - rs_off s)).
      { subst bs. now rewrite length_take, length_drop. }
      cbn [io.is_EOF fst snd].
      destruct (IH (N - Z.of_nat (length bs))
                  ({| rs_data := rs_data s; rs_off := rs_off s + length bs;
                      rs_seek_err := rs_seek_err s |},
                   log ++ [io.OpRead n' (length bs)])
                  (total + Z.of_nat (length bs)))
        as (log' & Heq); cbn [fst snd rs_data rs_off]; [lia|lia|lia|].
      cbn [fst snd rs_data rs_off] in Heq.
      exists log'. rewrite Heq. clear Heq.
      replace (Nat.min (Z.to_nat N) (length (rs_data s) - rs_off s))
        with (length bs
              + Nat.min (Z.to_nat (N - Z.of_nat (length bs)))
                        (length (rs_data s) - (rs_off s + length bs)))%nat by lia.
      unfold rewound. cbn [rs_data rs_off rs_seek_err].
      rewrite Nat2Z.inj_add, Z.add_assoc, Z.sub_add_distr, Nat.add_assoc.
      reflexivity.
Qed.

(** X15: closing an unread or partly read body that is held in memory
    consumes what is left of it when that is at most 16 KiB, and exactly
    16 KiB of it otherwise; the close itself reports no error. *)
Theorem Close_memory_body_consumes (b : discardReadCloser (S := ReadSeeker)) :
  eof b = false ->
  (rs_off (ReadCloser_ b).1 <= length (rs_data (ReadCloser_ b).1))%nat ->
  exists b',
    discardReadCloser_Close memory_body (Z.to_nat 16385) b = Some (None, b')
    /\ rs_off (ReadCloser_ b').1
       = (rs_off (ReadCloser_ b).1
          + Nat.min (Z.to_nat 16384)
                    (length (rs_data (ReadCloser_ b).1) - rs_off (ReadCloser_ b).1))%nat
    /\ rs_data (ReadCloser_ b').1 = rs_data (ReadCloser_ b).1.
Proof.
  intros Heof Hoff. unfold discardReadCloser_Close, discard. rewrite Heof. cbn [negb].
  assert (H0 : 0 <= 16 * 1024) by lia.
  assert (Hf : (Z.to_nat (16 * 1024) < Z.to_nat 16385)%nat) by lia.
  destruct (Copy_Discard_memory (Z.to_nat 16385) (16 * 1024) (ReadCloser_ b) 0
              H0 Hoff Hf) as (log' & ->).
  unfold io.call_Close. cbn [fst snd io.Close memory_body].
  eexists. split; [reflexivity|]. cbn [ReadCloser_ fst rewound rs_off rs_data].
  split; reflexivity.
Qed.

(** ** Retry-After: integers *)

Lemma ParseInt_plus_decimal (s : string) (n : Z) :
  decimal s n -> strconv.ParseInt (String "+" s) = strconv.ParseInt s.
Proof.
  intros (Hne & Hd & _). destruct s as [|c0 rest]; [congruence|].
  assert (Hc : strconv.is_digit c0 = true) by (simpl in Hd; now apply andb_prop in Hd).
  unfold strconv.ParseInt.
  change (Ascii.eqb "+" "+") with true. cbv iota.
  destruct (digit_not_sign c0 Hc) as [-> ->]. reflexivity.
Qed.

(** X16: for every decimal numeral [n] that fits an int64,
    [ParseRetryAfter] returns no error and the int64 product of [n] and
    [time.Second], which wraps around: it is [n] seconds up to 9223372036
    and not beyond.  A leading plus sign is accepted and changes
    nothing. *)
Theorem ParseRetryAfter_integer (ParseTime : string -> result time.Time)
    (now : time.Time) (s : string) (n : Z) :
  decimal s n -> n <= maxInt64 ->
  httpheader.ParseRetryAfter ParseTime now s = (wrap_i64 (n * time.Second), None)
  /\ httpheader.ParseRetryAfter ParseTime now (String "+" s)
     = (wrap_i64 (n * time.Second), None)
  /\ (wrap_i64 (n * time.Second) = n * time.Second <-> n <= 9223372036).
Proof.
  intros Hdec Hn.
  assert (Hnn : 0 <= n).
  { destruct Hdec as (_ & Hd & <-). apply digits_value_mono; [assumption|lia]. }
  assert (Hparse : forall v, strconv.ParseInt v = (n, None) -> v <> "" ->
            httpheader.ParseRetryAfter ParseTime now v
            = (wrap_i64 (n * time.Second), None)).
  { intros v Hv Hne. unfold httpheader.ParseRetryAfter.
    apply String.eqb_neq in Hne. rewrite Hne, Hv.
    destruct (Z.ltb_spec n 0); [lia | reflexivity]. }
  split; [|split].
  - apply Hparse; [now apply ParseInt_decimal | apply Hdec].
  - apply Hparse; [|discriminate].
    rewrite (ParseInt_plus_decimal s n Hdec). now apply ParseInt_decimal.
  - unfold time.Second, maxInt64 in *.
    assert (Hp63 : 2 ^ 63 = 9223372036854775808) by reflexivity.
    assert (Hp64 : 2 ^ 64 = 18446744073709551616) by reflexivity.
    split.
    + intros Hw. unfold wrap_i64 in Hw.
      pose proof (Z.mod_pos_bound (n * 1000000000 + 2 ^ 63) (2 ^ 64) ltac:(lia)).
      lia.
    + intros Hle. apply wrap_i64_small. lia.
Qed.

(** X17: whenever [ParseRetryAfter] returns an error, the duration it
    returns with it is zero. *)
Theorem ParseRetryAfter_error_zero (ParseTime : string -> result time.Time)
    (now : time.Time) (v : string) (d : time.Duration) (e : error) :
  httpheader.ParseRetryAfter ParseTime now v = (d, Some e) -> d = 0.
Proof.
  unfold httpheader.ParseRetryAfter.
  destruct (String.eqb v ""); [discriminate|].
  destruct (strconv.ParseInt v) as [i [ne|]].
  - destruct (ParseTime v) as [t|pe]; [|now intros [= <- _]].
    destruct (time.Until now t <? 0); [now intros [= <- _] | discriminate].
  - destruct (i <? 0); [now intros [= <- _] | discriminate].
Qed.

(** ** Errors *)


(** X19: [AsStatusError] recovers a [StatusError] through any number of
    wrappings with %w, and reports false with the zero value for the nil
    error and for a chain that holds no [StatusError]. *)
Theorem AsStatusError_wrapped (s : statuserror.StatusError) (k : nat) (e : error) :
  statuserror.AsStatusError
    (Some (statuserror.wrap_times k (statuserror.ofStatusError s))) = (s, true)
  /\ statuserror.AsStatusError None = (statuserror.zero, false)
  /\ statuserror.AsStatusError (Some (statuserror.wrap_times k (statuserror.other e)))
     = (statuserror.zero, false).
Proof.
  assert (H1 : forall x, statuserror.errors_As (statuserror.wrap_times k x)
                         = statuserror.errors_As x).
  { intros x. induction k as [|k IH]; [reflexivity | exact IH]. }
  unfold statuserror.AsStatusError. rewrite !H1. cbn. auto.
Qed.

(** ** The further properties on concrete inputs *)





Lemma attempt_body_hook_error_witness :
  exists st',
    attempt_body ParseTime_table (server [] (Ok (plain_response 404 None None)))
      options_rejecting 0 (loop_state request_without_body 1 []) = Break st'
    /\ r st' = Some (wrapped 404 None None)
    /\ doErr st' = Some (errorString "rejected")
    /\ rty st' = retrier_after 1
    /\ trace st' = [] ++ [EvRoundTrip 0] ++ [EvOnErrorResponse 0].
Proof.
  apply (attempt_body_hook_error ParseTime_table
           (server [] (Ok (plain_response 404 None None))) options_rejecting 0
           (loop_state request_without_body 1 []) (wrapped 404 None None)
           (wrapped 404 None None) (errorString "rejected")
           request_without_body [EvRoundTrip 0]
           (fun resp => (Some (errorString "rejected"), resp)));
    reflexivity.
Defined.

Lemma Do_default_headers_witness :
  match Do ParseTime_table (server [] (Ok (plain_response 200 None None)))
           options_with_headers 1 request_accept_json with
  | Some st =>
      req_Header (req st) !! "Accept" = Some ["application/json"]
      /\ req_Header (req st) !! "User-Agent" = Some ["nx"]
      /\ req_Header (req st) !! "Host" = None
  | None => False
  end.
Proof.
  destruct (Do ParseTime_table (server [] (Ok (plain_response 200 None None)))
              options_with_headers 1 request_accept_json) as [st|] eqn:E.
  - rewrite !(Do_default_headers ParseTime_table
                (server [] (Ok (plain_response 200 None None)))
                options_with_headers 1 request_accept_json st _ eq_refl E).
    vm_compute. auto.
  - vm_compute in E. discriminate E.
Defined.

Lemma GetBody_size_is_content_length_witness :
  exists content obj',
    open_and_read room_512 6 bodyFuncFromReadSeeker
      (NewReader (list_byte_of_string "hello"))
    = Some ((content, None), obj')
    /\ 5 = Z.of_nat (length content).
Proof.
  apply (GetBody_size_is_content_length Encode_fixed room_512
           (fun _ => Nat.lt_0_succ 511) (any_string "hello")
           bodyFuncFromReadSeeker 5 (NewReader (list_byte_of_string "hello")));
    reflexivity.
Defined.

Lemma GetBody_file_capped_witness :
  exists content obj',
    open_and_read room_512 8 (bodyFuncFromFile 3)
      {| rs_data := [x61; x62; x63; x64; x65; x66; x67]; rs_off := 5;
         rs_seek_err := None |}
    = Some ((content, None), obj')
    /\ content = take (Z.to_nat 3) [x61; x62; x63; x64; x65; x66; x67]
    /\ (0 <= 3 -> Z.of_nat (length content) <= 3).
Proof.
  apply (GetBody_file_capped Encode_fixed room_512 (fun _ => Nat.lt_0_succ 511)
           {| rs_data := [x61; x62; x63; x64; x65]; rs_off := 2; rs_seek_err := None |}
           3 (bodyFuncFromFile 3)
           {| rs_data := [x61; x62; x63; x64; x65]; rs_off := 2; rs_seek_err := None |}
           {| rs_data := [x61; x62; x63; x64; x65; x66; x67]; rs_off := 5;
              rs_seek_err := None |});
    reflexivity.
Defined.

Lemma Set_Get_witness :
  httpheader_map.Values (httpheader_map.Set_ header_accept "Accept" ["a"; "b"]) "Accept"
  = ["a"; "b"]
  /\ httpheader_map.Get (httpheader_map.Set_ header_accept "Accept" ["a"; "b"]) "Accept"
     = "a".
Proof.
  apply (proj2 (Set_Get header_accept "Accept" "Accept" ["a"; "b"])). discriminate.
Defined.

Lemma Add_Values_witness :
  httpheader_map.Values (httpheader_map.Add header_accept "Accept" "x") "Accept"
  = ["text/html"; "text/plain"; "x"]
  /\ httpheader_map.Get (httpheader_map.Add header_accept "Accept" "x") "Accept"
     = "text/html".
Proof.
  apply (proj2 (Add_Values header_accept "Accept" "Accept" "x")). discriminate.
Defined.

Lemma NewRestrictedDialer_denies_internal_witness :
  nxdial.IsAllowed nxdial.NewRestrictedDialer (netip.AddrFrom4 10 1 2 3) = false
  /\ nxdial.IsAllowed nxdial.NewRestrictedDialer (netip.AddrFrom4 172 31 255 255) = false
  /\ nxdial.IsAllowed nxdial.NewRestrictedDialer addr_fe80_1_eth0 = false.
Proof.
  destruct NewRestrictedDialer_denies_internal as [H4 H6].
  split; [|split].
  - apply H4. left. vm_compute. split; congruence.
  - apply H4. right. left. vm_compute. split; congruence.
  - apply H6. right. right. vm_compute. split; congruence.
Defined.

Lemma Close_memory_body_consumes_witness :
  (exists b',
      discardReadCloser_Close memory_body (Z.to_nat 16385) body_abc = Some (None, b')
      /\ rs_off (ReadCloser_ b').1 = (0 + Nat.min (Z.to_nat 16384) (3 - 0))%nat
      /\ rs_data (ReadCloser_ b').1 = [x61; x62; x63]).
Proof.
  apply (Close_memory_body_consumes body_abc); [reflexivity | cbn; lia].
Defined.

Lemma ParseRetryAfter_integer_witness :
  httpheader.ParseRetryAfter ParseTime_table 0 "120" = (wrap_i64 (120 * time.Second), None)
  /\ httpheader.ParseRetryAfter ParseTime_table 0 "+120"
     = (wrap_i64 (120 * time.Second), None)
  /\ (wrap_i64 (120 * time.Second) = 120 * time.Second <-> 120 <= 9223372036).
Proof.
  apply (ParseRetryAfter_integer ParseTime_table 0 "120" 120 decimal_120).
  vm_compute. discriminate.
Defined.

Lemma ParseRetryAfter_error_zero_witness : 0 = 0.
Proof.
  apply (ParseRetryAfter_error_zero ParseTime_table 0 "-5" 0
           (errorString "nxhttp: got negative Retry-After value in response")).
  reflexivity.
Defined.


(** ** NewStatusError and the 4 KiB limit *)

Section StatusBody.

Variable TrimSpace : list byte -> list byte.
Variable room : nat -> nat.
Hypothesis room_positive : forall k, (0 < room k)%nat.

(** A body of at most the allowed size is read whole through the limit,
    and its end is seen. *)
Lemma ReadAll_maxBytes_fits (fuel : nat) (l : nethttp.maxBytesReader)
    (body : discardReadCloser (S := ReadSeeker)) (acc : list byte) :
  nethttp.mb_err l = None ->
  (rs_off (ReadCloser_ body).1 <= length (rs_data (ReadCloser_ body).1))%nat ->
  Z.of_nat (length (rs_data (ReadCloser_ body).1) - rs_off (ReadCloser_ body).1)
    <= nethttp.mb_n l ->
  (length (rs_data (ReadCloser_ body).1) - rs_off (ReadCloser_ body).1 < fuel)%nat ->
  exists l' body',
    io.ReadAll (nethttp.maxBytesReader_Read (discardReadCloser_Read memory_body))
               room fuel (l, body) acc
    = Some ((acc ++ drop (rs_off (ReadCloser_ body).1) (rs_data (ReadCloser_ body).1),
             None), (l', body'))
    /\ eof body' = true.
Proof.
  set (rd := nethttp.maxBytesReader_Read (discardReadCloser_Read memory_body)).
  revert l body acc.
  induction fuel as [|fuel IH]; intros l [[s log] e] acc Herr Hoff Hfit Hfuel;
    cbn [ReadCloser_ fst snd] in *; [lia|].
  cbn [io.ReadAll].
  remember (rd (l, {| ReadCloser_ := (s, log); eof := e |}) (room (length acc)))
    as res eqn:Hres.
  unfold rd, nethttp.maxBytesReader_Read in Hres. cbn [fst snd] in Hres.
  rewrite Herr in Hres.
  pose proof (room_positive (length acc)) as Hroom.
  destruct (Nat.eqb_spec (room (length acc)) 0); [lia|].
  revert Hres.
  set (n' := if nethttp.mb_n l <? Z.of_nat (room (length acc)) - 1
             then Z.to_nat (nethttp.mb_n l + 1) else room (length acc)).
  assert (Hn' : (0 < n')%nat).
  { subst n'. destruct (Z.ltb_spec (nethttp.mb_n l) (Z.of_nat (room (length acc)) - 1));
      lia. }
  unfold discardReadCloser_Read, io.call_Read.
  cbn [ReadCloser_ fst snd io.Read memory_body eof]. unfold ReadSeeker_Read.
  destruct (Nat.leb_spec (length (rs_data s)) (rs_off s)) as [Hend|Hmore].
  - cbn [length io.is_EOF]. destruct (Z.leb_spec (Z.of_nat 0) (nethttp.mb_n l)); [|lia].
    intros ->. cbn [io.is_EOF]. rewrite drop_ge by lia. eexists. eexists.
    split; [reflexivity|]. reflexivity.
  - set (bs := take n' (drop (rs_off s) (rs_data s))).
    assert (Hbs : length bs = Nat.min n' (length (rs_data s) - rs_off s)).
    { subst bs. now rewrite length_take, length_drop. }
    destruct (Z.leb_spec (Z.of_nat (length bs)) (nethttp.mb_n l)); [|lia].
    cbn [io.is_EOF]. intros ->.
    destruct (IH {| nethttp.mb_n := nethttp.mb_n l - Z.of_nat (length bs);
                    nethttp.mb_err := None |}
                 {| ReadCloser_ :=
                      ({| rs_data := rs_data s; rs_off := rs_off s + length bs;
                          rs_seek_err := rs_seek_err s |},
                       log ++ [io.OpRead n' (length bs)]);
                    eof := e |}
                 (acc ++ bs))
      as (l' & body' & Heq & Heof);
      cbn [ReadCloser_ fst snd rs_data rs_off nethttp.mb_n nethttp.mb_err];
      [reflexivity|lia|lia|lia|].
    cbn [ReadCloser_ fst snd rs_data rs_off] in Heq.
    exists l', body'. rewrite Heq. split; [|exact Heof].
    rewrite <- app_assoc. repeat f_equal.
    subst bs. rewrite <- drop_drop. apply take_drop_length.
Qed.

(** A body larger than the allowed size makes the limited read fail, and
    its end is not seen. *)
Lemma ReadAll_maxBytes_overflow (fuel : nat) (l : nethttp.maxBytesReader)
    (body : discardReadCloser (S := ReadSeeker)) (acc : list byte) :
  nethttp.mb_err l = None -> 0 <= nethttp.mb_n l ->
  eof body = false ->
  (rs_off (ReadCloser_ body).1 <= length (rs_data (ReadCloser_ body).1))%nat ->
  nethttp.mb_n l
    < Z.of_nat (length (rs_data (ReadCloser_ body).1) - rs_off (ReadCloser_ body).1) ->
  (Z.to_nat (nethttp.mb_n l) < fuel)%nat ->
  exists b l' body',
    io.ReadAll (nethttp.maxBytesReader_Read (discardReadCloser_Read memory_body))
               room fuel (l, body) acc
    = Some ((b, Some nethttp.MaxBytesError), (l', body'))
    /\ eof body' = false
    /\ (rs_off (ReadCloser_ body').1 <= length (rs_data (ReadCloser_ body').1))%nat.
Proof.
  set (rd := nethttp.maxBytesReader_Read (discardReadCloser_Read memory_body)).
  revert l body acc.
  induction fuel as [|fuel IH];
    intros l [[s log] e] acc Herr Hn Heof Hoff Hover Hfuel;
    cbn [ReadCloser_ fst snd eof] in *; [lia|]. subst e.
  cbn [io.ReadAll].
  remember (rd (l, {| ReadCloser_ := (s, log); eof := false |}) (room (length acc)))
    as res eqn:Hres.
  unfold rd, nethttp.maxBytesReader_Read in Hres. cbn [fst snd] in Hres.
  rewrite Herr in Hres.
  pose proof (room_positive (length acc)) as Hroom.
  destruct (Nat.eqb_spec (room (length acc)) 0); [lia|].
  revert Hres.
  set (n' := if nethttp.mb_n l <? Z.of_nat (room (length acc)) - 1
             then Z.to_nat (nethttp.mb_n l + 1) else room (length acc)).
  assert (Hn' : (0 < n')%nat /\ Z.of_nat n' <= nethttp.mb_n l + 1).
  { subst n'. destruct (Z.ltb_spec (nethttp.mb_n l) (Z.of_nat (room (length acc)) - 1));
      lia. }
  unfold discardReadCloser_Read, io.call_Read.
  cbn [ReadCloser_ fst snd io.Read memory_body eof]. unfold ReadSeeker_Read.
  destruct (Nat.leb_spec (length (rs_data s)) (rs_off s)) as [Hend|Hmore]; [lia|].
  set (bs := take n' (drop (rs_off s) (rs_data s))).
  assert (Hbs : length bs = Nat.min n' (length (rs_data s) - rs_off s)).
  { subst bs. now rewrite length_take, length_drop. }
  cbn [io.is_EOF].
  destruct (Z.leb_spec (Z.of_nat (length bs)) (nethttp.mb_n l)) as [Hfit|Hbig];
    intros ->.
  - destruct (IH {| nethttp.mb_n := nethttp.mb_n l - Z.of_nat (length bs);
                    nethttp.mb_err := None |}
                 {| ReadCloser_ :=
                      ({| rs_data := rs_data s; rs_off := rs_off s + length bs;
                          rs_seek_err := rs_seek_err s |},
                       log ++ [io.OpRead n' (length bs)]);
                    eof := false |}
                 (acc ++ bs))
      as (b & l' & body' & Heq & Hrest);
      cbn [ReadCloser_ fst snd rs_data rs_off nethttp.mb_n nethttp.mb_err eof];
      [reflexivity|lia|reflexivity|lia|lia|lia|].
    cbn [ReadCloser_ fst snd rs_data rs_off] in Heq.
    exists b, l', body'. rewrite Heq. split; [reflexivity | exact Hrest].
  - cbn [io.is_EOF]. eexists. eexists. eexists. split; [reflexivity|].
    cbn [eof ReadCloser_ fst rs_off rs_data]. split; [reflexivity | lia].
Qed.

(** X20: [NewStatusError] on a response whose unread body is held in
    memory takes the status code and the expected code, closes the body,
    and captures the body only when it has at most 4096 bytes: then
    [Data] is the trimmed body; for a larger body [Data] is left empty,
    not cut to 4096 bytes. *)
Theorem NewStatusError_body_limit (resp : Response (S := ReadSeeker))
    (body : discardReadCloser (S := ReadSeeker)) (expected : Z) :
  Body resp = Some body ->
  eof body = false ->
  (rs_off (ReadCloser_ body).1 <= length (rs_data (ReadCloser_ body).1))%nat ->
  exists body' log',
    NewStatusError memory_body TrimSpace room (Z.to_nat 16385) (Some resp) expected
    = Some ({| statuserror.Data :=
                 if Z.of_nat (length (rs_data (ReadCloser_ body).1)
                              - rs_off (ReadCloser_ body).1) <=? 4096
                 then TrimSpace (drop (rs_off (ReadCloser_ body).1)
                                      (rs_data (ReadCloser_ body).1))
                 else [];
               statuserror.StatusCode := StatusCode resp;
               statuserror.Expected := expected |},
            Some {| StatusCode := StatusCode resp; Header := Header resp;
                    Body := Some body' |})
    /\ (ReadCloser_ body').2 = log' ++ [io.OpClose].
Proof.
  intros Hbody Heof Hoff. unfold NewStatusError. rewrite Hbody.
  destruct (Z.leb_spec (Z.of_nat (length (rs_data (ReadCloser_ body).1)
                                  - rs_off (ReadCloser_ body).1)) 4096) as [Hfit|Hbig].
  - destruct (ReadAll_maxBytes_fits (Z.to_nat 16385)
                (nethttp.MaxBytesReader (4 * 1024)) body [])
      as (l' & body1 & -> & Heof1); [reflexivity|assumption| |lia|].
    { change (nethttp.mb_n (nethttp.MaxBytesReader (4 * 1024))) with 4096. lia. }
    unfold discardReadCloser_Close. rewrite Heof1. cbn [negb].
    unfold io.call_Close. cbn [io.Close memory_body fst snd app].
    eexists. eexists. split; reflexivity.
  - destruct (ReadAll_maxBytes_overflow (Z.to_nat 16385)
                (nethttp.MaxBytesReader (4 * 1024)) body [])
      as (b & l' & body1 & -> & Heof1 & Hoff1);
      [reflexivity| |assumption|assumption| | |].
    { change (nethttp.mb_n (nethttp.MaxBytesReader (4 * 1024))) with 4096. lia. }
    { change (nethttp.mb_n (nethttp.MaxBytesReader (4 * 1024))) with 4096. lia. }
    { change (nethttp.mb_n (nethttp.MaxBytesReader (4 * 1024))) with 4096. lia. }
    unfold discardReadCloser_Close, discard. rewrite Heof1. cbn [negb].
    assert (H0 : 0 <= 16 * 1024) by lia.
    assert (Hf : (Z.to_nat (16 * 1024) < Z.to_nat 16385)%nat) by lia.
    destruct (Copy_Discard_memory (Z.to_nat 16385) (16 * 1024) (ReadCloser_ body1) 0
                H0 Hoff1 Hf) as (log' & ->).
    unfold io.call_Close. cbn [io.Close memory_body fst snd].
    eexists. eexists. split; reflexivity.
Qed.

End StatusBody.

Lemma NewStatusError_body_limit_witness :
  exists body' log',
    NewStatusError memory_body (fun b => b) room_512 (Z.to_nat 16385)
      (Some {| StatusCode := 500; Header := ∅; Body := Some body_abc |}) 200
    = Some ({| statuserror.Data := [x61; x62; x63];
               statuserror.StatusCode := 500;
               statuserror.Expected := 200 |},
            Some {| StatusCode := 500; Header := ∅; Body := Some body' |})
    /\ (ReadCloser_ body').2 = log' ++ [io.OpClose].
Proof.
  apply (NewStatusError_body_limit (fun b => b) room_512 (fun _ => Nat.lt_0_succ 511)
           {| StatusCode := 500; Header := ∅; Body := Some body_abc |} body_abc 200);
    [reflexivity | reflexivity | cbn; lia].
Defined.

(** ** Requests: SetBody, NewRequest and WriteTo *)

Section RequestProps.

Variable Encode : gmap string (list string) -> string.
Variable room : nat -> nat.
Hypothesis room_positive : forall k, (0 < room k)%nat.

(** [WriteTo] copies what one open of the body yields. *)
Lemma WriteTo_open_and_read (fuel : nat) (req : Request) (fn : BodyFunc)
    (w content : list byte) (o : ReadSeeker) :
  body req = Some fn ->
  open_and_read room fuel fn (body_obj req) = Some ((content, None), o) ->
  WriteTo room fuel req w
  = Some (Returned (Z.of_nat (length content), None),
          {| req_Header := req_Header req; body := body req; body_obj := o |},
          w ++ content).
Proof.
  intros Hfn Hopen. unfold WriteTo. rewrite Hfn. unfold open_and_read in Hopen.
  destruct (fn (body_obj req)) as [[stream [e|]] o1]; [discriminate|].
  destruct (io.ReadAll Stream_Read room fuel (stream, o1) [])
    as [[[bs err] [s' o2]]|]; [|discriminate].
  injection Hopen as -> -> ->. reflexivity.
Qed.

(** One open of a body built by [GetBody] yields the content, and leaves
    the object with its data. *)
Lemma GetBody_open_and_read (v : any) (fn : BodyFunc) (size : Z) (obj r : ReadSeeker) :
  replayable v = true ->
  GetBody Encode v = ((Some fn, size, None), Some obj) ->
  rs_data r = rs_data obj -> rs_seek_err r = None ->
  exists r',
    open_and_read room (Datatypes.S (length (rs_data obj))) fn r
    = Some ((body_content Encode v, None), r')
    /\ rs_data r' = rs_data obj /\ rs_seek_err r' = None.
Proof.
  intros Hv Hget Hd Hs.
  assert (Hplain : fn = bodyFuncFromReadSeeker ->
            body_content Encode v = rs_data obj ->
            exists r',
              open_and_read room (Datatypes.S (length (rs_data obj))) fn r
              = Some ((body_content Encode v, None), r')
              /\ rs_data r' = rs_data obj /\ rs_seek_err r' = None).
  { intros -> ->. eexists. rewrite <- Hd.
    rewrite (open_and_read_ReadSeeker room room_positive) by (auto; lia).
    split; [reflexivity|]. cbn. auto. }
  destruct v as [|open m o|f [sz|e]|r0 m|b|s|vals|t]; try discriminate Hv;
    cbn [GetBody bodyFuncFromReadSeekerSize] in Hget.
  - injection Hget as <- _ <-. cbn [body_content].
    destruct (open_and_read_File room room_positive
                (Datatypes.S (length (rs_data f))) sz r Hs)
      as (r' & Heq & Hd' & Hs'); [rewrite Hd; lia|].
    exists r'. rewrite Heq, Hd. split; [reflexivity|]. split; congruence.
  - injection Hget as <- _ <-. now apply Hplain.
  - injection Hget as <- _ <-. now apply Hplain.
  - injection Hget as <- _ <-. now apply Hplain.
  - injection Hget as <- _ <-. now apply Hplain.
Qed.

(** X21: a request made by [NewRequest] from bytes, text, form values, a
    seekable file or a seekable reader can be written out any number of
    times: [WriteTo], on the request in whatever position earlier reads
    left its body, appends the content of the body to the writer and
    returns its length with no error, and leaves a request that holds the
    same body. *)
Theorem WriteTo_writes_body (v : any) (req : Request) (n : Z) :
  replayable v = true ->
  NewRequest Encode None v = Ok (req, n) ->
  rs_seek_err (body_obj req) = None ->
  forall (req1 : Request) (w : list byte),
    same_body req req1 ->
    exists req2,
      WriteTo room (Datatypes.S (length (rs_data (body_obj req)))) req1 w
      = Some (Returned (Z.of_nat (length (body_content Encode v)), None),
              req2, w ++ body_content Encode v)
      /\ same_body req req2.
Proof.
  intros Hv Hnew Hseek req1 w (Hb & Hd & Hs).
  unfold NewRequest, SetBody in Hnew.
  destruct (GetBody Encode v) as [[[fn size] err] obj] eqn:Hget.
  destruct err as [e|]; [discriminate|]. injection Hnew as <- <-.
  cbn [body body_obj] in *.
  destruct fn as [fn|]; [|destruct v as [|? ? ?|? [?|?]|? ?|?|?|?|?]; discriminate].
  destruct obj as [obj|]; [|destruct v as [|? ? ?|? [?|?]|? ?|?|?|?|?]; discriminate].
  cbn [default from_option id] in *. unfold id in *.
  destruct (GetBody_open_and_read v fn size obj (body_obj req1) Hv Hget Hd)
    as (r' & Hopen & Hd' & Hs'); [congruence|].
  eexists. rewrite (WriteTo_open_and_read _ req1 fn w _ r' Hb Hopen).
  split; [reflexivity|]. unfold same_body. cbn [body body_obj].
  split; [assumption|]. split; congruence.
Qed.

(** X22: after [SetBody] with nil, or with a value it returns an error
    for, the request has no body function, and [WriteTo] panics on the
    call of it: it writes nothing and returns nothing. *)
Theorem WriteTo_without_body_panics (fuel : nat) (r req : Request) (v : any)
    (n : Z) (err : option error) (w : list byte) :
  SetBody Encode r v = ((req, n), err) ->
  v = any_nil \/ err <> None ->
  n = 0 /\ WriteTo room fuel req w = Some (Panicked, req, w).
Proof.
  intros Hset Hv. unfold SetBody in Hset.
  destruct v as [|open m o|f [sz|e]|r0 m|b|s|vals|t];
    cbn [GetBody bodyFuncFromReadSeekerSize] in Hset;
    injection Hset as <- <- <-;
    try (destruct Hv as [Hv|Hv]; [discriminate Hv | now contradiction Hv]);
    split; reflexivity.
Qed.

End RequestProps.

Lemma WriteTo_writes_body_witness :
  exists req2,
    WriteTo room_512 4
      {| req_Header := ∅; body := Some bodyFuncFromReadSeeker;
         body_obj := {| rs_data := [x61; x62; x63]; rs_off := 2;
                        rs_seek_err := None |} |}
      [x7a]
    = Some (Returned (3, None), req2, [x7a; x61; x62; x63])
    /\ same_body {| req_Header := ∅; body := Some bodyFuncFromReadSeeker;
                    body_obj := NewReader [x61; x62; x63] |} req2.
Proof.
  apply (WriteTo_writes_body Encode_fixed room_512 (fun _ => Nat.lt_0_succ 511)
           (any_bytes [x61; x62; x63])
           {| req_Header := ∅; body := Some bodyFuncFromReadSeeker;
              body_obj := NewReader [x61; x62; x63] |} 3);
    [reflexivity | reflexivity | reflexivity |].
  repeat split.
Defined.

Lemma WriteTo_without_body_panics_witness :
  0 = 0
  /\ WriteTo room_512 4 request_without_body [x7a]
     = Some (Panicked, request_without_body, [x7a]).
Proof.
  apply (WriteTo_without_body_panics Encode_fixed room_512 4
           request_without_body request_without_body any_nil 0 None [x7a]);
    [reflexivity | left; reflexivity].
Defined.

(** ** NewClient and the options of the client *)

Section ClientOptionProps.

Context {S : Type}.
Variables http_Transport http_RoundTripper CheckRedirectFunc http_CookieJar : Type.
Variable defaultTransport : http_Transport.
Variable of_Transport : http_Transport -> http_RoundTripper.

Abbreviation ClientOption' :=
  (ClientOption (S := S) http_Transport http_RoundTripper CheckRedirectFunc
     http_CookieJar).
Abbreviation clientOptions' :=
  (clientOptions http_Transport http_RoundTripper CheckRedirectFunc http_CookieJar).
Abbreviation run := (fold_left (NewClient_step (S := S) defaultTransport)).

(** The two agree on every field but the transport. *)
Definition agree_but_transport (a b : clientOptions') : Prop :=
  roundTripper a = roundTripper b /\ checkRedirect a = checkRedirect b
  /\ timeout a = timeout b /\ cookieJar a = cookieJar b.

(** The two agree on every field but the round tripper. *)
Definition agree_but_round_tripper (a b : clientOptions') : Prop :=
  transport a = transport b /\ checkRedirect a = checkRedirect b
  /\ timeout a = timeout b /\ cookieJar a = cookieJar b.

Lemma run_without_transport_options (l : list ClientOption') :
  forall (o : options (S := S)) (a b : clientOptions'),
    agree_but_transport a b ->
    (run l (o, a)).1
    = (run (List.filter (fun opt => negb (transport_option opt)) l) (o, b)).1
    /\ agree_but_transport
         (run l (o, a)).2
         (run (List.filter (fun opt => negb (transport_option opt)) l) (o, b)).2.
Proof.
  induction l as [|opt l IH]; intros o a b Hab; cbn [fold_left List.filter].
  - split; [reflexivity | exact Hab].
  - destruct Hab as (H1 & H2 & H3 & H4).
    destruct opt; cbn [transport_option negb fold_left NewClient_step applyClient fst snd];
      apply IH; unfold agree_but_transport;
      cbn [roundTripper checkRedirect timeout cookieJar]; auto.
Qed.

Lemma run_without_round_tripper_options (l : list ClientOption') :
  forall (o : options (S := S)) (a b : clientOptions'),
    agree_but_round_tripper a b ->
    (run l (o, a)).1
    = (run (List.filter (fun opt => negb (round_tripper_option opt)) l) (o, b)).1
    /\ agree_but_round_tripper
         (run l (o, a)).2
         (run (List.filter (fun opt => negb (round_tripper_option opt)) l) (o, b)).2.
Proof.
  induction l as [|opt l IH]; intros o a b Hab; cbn [fold_left List.filter].
  - split; [reflexivity | exact Hab].
  - destruct Hab as (H1 & H2 & H3 & H4).
    destruct opt;
      cbn [round_tripper_option negb fold_left NewClient_step applyClient fst snd];
      apply IH; unfold agree_but_round_tripper;
      cbn [transport checkRedirect timeout cookieJar]; rewrite ?H1; auto.
Qed.

(** Options other than [WithRoundTripper] leave the round tripper, and
    act on the other fields whatever it is. *)
Lemma run_keeps_round_tripper (l : list ClientOption') :
  forall (o : options (S := S)) (a b : clientOptions'),
    forallb (fun opt => negb (round_tripper_option opt)) l = true ->
    agree_but_round_tripper a b ->
    (run l (o, a)).1 = (run l (o, b)).1
    /\ agree_but_round_tripper (run l (o, a)).2 (run l (o, b)).2
    /\ roundTripper (run l (o, a)).2 = roundTripper a.
Proof.
  induction l as [|opt l IH]; intros o a b Hl Hab; cbn [fold_left].
  - split; [reflexivity|]. split; [exact Hab | reflexivity].
  - cbn [forallb] in Hl. apply andb_prop in Hl as [Hopt Hl].
    destruct Hab as (H1 & H2 & H3 & H4).
    destruct opt; try discriminate Hopt;
      cbn [NewClient_step applyClient fst snd];
      match goal with
      | |- (run l (?o', ?a')).1 = (run l (_, ?b')).1 /\ _ =>
          destruct (IH o' a' b' Hl) as (E1 & E2 & E3);
          [unfold agree_but_round_tripper;
           cbn [transport checkRedirect timeout cookieJar]; rewrite ?H1; auto
          |split; [exact E1|]; split; [exact E2|]; rewrite E3; reflexivity]
      end.
Qed.

Lemma forallb_filter_same {A : Type} (p : A -> bool) (l : list A) :
  forallb p (List.filter p l) = true.
Proof.
  induction l as [|x l IH]; [reflexivity|]. cbn [List.filter].
  destruct (p x) eqn:Hp; [|exact IH]. cbn [forallb]. now rewrite Hp, IH.
Qed.


(** X24: the function of a [WithRoundTripper] that no later
    [WithRoundTripper] overrides wraps the transport as all the options
    configured it, those after it included: the round tripper of the
    client is that function applied to the round tripper of the client
    built from the same options with every [WithRoundTripper] left out. *)
Theorem NewClient_round_tripper_wraps (before after : list ClientOption')
    (f : http_RoundTripper -> http_RoundTripper) :
  forallb (fun opt => negb (round_tripper_option opt)) after = true ->
  client_Transport
    (Client_client
       (NewClient defaultTransport of_Transport
          (before ++ WithRoundTripper (Some f) :: after)))
  = f (client_Transport
         (Client_client
            (NewClient defaultTransport of_Transport
               (List.filter (fun opt => negb (round_tripper_option opt)) before
                ++ after)))).
Proof.
  intros Hafter. unfold NewClient. rewrite !fold_left_app. cbn [fold_left].
  set (c0 := {| transport := None; roundTripper := None; checkRedirect := None;
                timeout := 0; cookieJar := None |} : clientOptions').
  set (kept := List.filter (fun opt => negb (round_tripper_option opt)) before).
  destruct (run_without_round_tripper_options before newOptions c0 c0)
    as (Eo & Eagree); [repeat split|]. fold kept in Eo, Eagree.
  destruct (run_keeps_round_tripper kept newOptions c0 c0) as (_ & _ & Enone);
    [apply forallb_filter_same | repeat split |].
  destruct (run before (newOptions, c0)) as [o1 a].
  destruct (run kept (newOptions, c0)) as [o2 b].
  cbn [fst snd NewClient_step applyClient] in *. subst o2.
  destruct (run_keeps_round_tripper after o1
              {| transport := transport a; roundTripper := Some f;
                 checkRedirect := checkRedirect a; timeout := timeout a;
                 cookieJar := cookieJar a |} b Hafter)
    as (_ & (Et & _) & Ef); [exact Eagree|].
  destruct (run_keeps_round_tripper after o1 b b Hafter) as (_ & _ & Eb);
    [repeat split|].
  rewrite Enone in Eb. cbn [roundTripper] in Ef, Eb.
  destruct (run after (o1, {| transport := transport a; roundTripper := Some f;
                              checkRedirect := checkRedirect a; timeout := timeout a;
                              cookieJar := cookieJar a |})) as [o3 a'].
  destruct (run after (o1, b)) as [o4 b'].
  cbn [fst snd] in *.
  unfold clientOptions_Client. cbn [Client_client client_Transport].
  rewrite Ef, Eb, Et. reflexivity.
Qed.

End ClientOptionProps.

Lemma NewClient_round_tripper_wraps_witness :
  client_Transport
    (Client_client
       (NewClient (S := unit) (CheckRedirectFunc := unit) (http_CookieJar := unit)
          1%nat (fun t : nat => [t])
          ([WithTransport Nat.succ; WithRoundTripper None]
           ++ WithRoundTripper (Some (cons 7%nat)) :: [WithTransport (Nat.mul 2)])))
  = [7; 4]%nat.
Proof.
  apply (NewClient_round_tripper_wraps (S := unit) nat (list nat) unit unit
           1%nat (fun t : nat => [t])
           [WithTransport Nat.succ; WithRoundTripper None]
           [WithTransport (Nat.mul 2)] (cons 7%nat)).
  reflexivity.
Defined.
